(** * ngn-banks-registry: the logo ingestion workflow

    A shallow embedding of [scripts/workflow.ts] (class [ImageProcessor])
    and the properties of its validation, matching, reporting and cleanup
    steps.

    JavaScript strings are embedded as [string]; file sizes and size bounds
    as [Z]; arrays as lists.  The asynchronous methods run sequentially
    (every call is awaited), so they are embedded in a state monad over the
    processor object, the outside world, the console and the list of calls
    made to the file system and to the object store. *)

From Stdlib Require Import ZArith QArith Lia Ascii String.
From stdpp Require Import base list strings pretty gmap.

(* ------------------------------------------------------------------ *)
(** ** JavaScript string primitives *)

Module Js.

Definition is_upper (c : ascii) : bool :=
  let n := Ascii.nat_of_ascii c in (65 <=? n)%nat && (n <=? 90)%nat.

Definition lower_char (c : ascii) : ascii :=
  if is_upper c then Ascii.ascii_of_nat (Ascii.nat_of_ascii c + 32) else c.

(** [String.prototype.toLowerCase], on the ASCII range. *)
Fixpoint toLowerCase (s : string) : string :=
  match s with
  | EmptyString => EmptyString
  | String c r => String (lower_char c) (toLowerCase r)
  end.

Fixpoint startsWith (needle hay : string) : bool :=
  match needle, hay with
  | EmptyString, _ => true
  | String _ _, EmptyString => false
  | String a n, String b h => bool_decide (a = b) && startsWith n h
  end.

(** [hay.includes(needle)]. *)
Fixpoint includes (needle hay : string) : bool :=
  startsWith needle hay ||
  match hay with
  | EmptyString => false
  | String _ h => includes needle h
  end.

(** Truthiness of a [string | null | undefined] value. *)
Definition truthy (v : option string) : bool :=
  match v with
  | None => false
  | Some s => negb (bool_decide (s = ""))
  end.

(** A [string | null] value inside a template literal. *)
Definition show (v : option string) (absent : string) : string :=
  match v with
  | None => absent
  | Some s => s
  end.

(** Values of type [number] that [parseInt] can return. *)
Inductive number :=
| NaN
| Int (z : Z).

(** Completion of an expression: a value, or a thrown exception. *)
Inductive completion (A : Type) :=
| Normal (a : A)
| Throw (message : string).
Arguments Normal {A} a.
Arguments Throw {A} message.

Definition is_space (c : ascii) : bool :=
  let n := Ascii.nat_of_ascii c in
  (n =? 32)%nat || ((9 <=? n)%nat && (n <=? 13)%nat).

Fixpoint trim_start (s : string) : string :=
  match s with
  | String c r => if is_space c then trim_start r else s
  | EmptyString => EmptyString
  end.

Definition digit_value (c : ascii) : option Z :=
  let n := Z.of_nat (Ascii.nat_of_ascii c) in
  if (48 <=? n)%Z && (n <=? 57)%Z then Some (n - 48)%Z
  else if (97 <=? n)%Z && (n <=? 122)%Z then Some (n - 87)%Z
  else if (65 <=? n)%Z && (n <=? 90)%Z then Some (n - 55)%Z
  else None.

(** The longest prefix of digits below [radix], read as a number. *)
Fixpoint digits (radix : Z) (acc : option Z) (s : string) : option Z :=
  match s with
  | EmptyString => acc
  | String c r =>
      match digit_value c with
      | Some d =>
          if (d <? radix)%Z
          then digits radix (Some (radix * default 0%Z acc + d)%Z) r
          else acc
      | None => acc
      end
  end.

(** [parseInt(s)] without a radix: leading white space, a sign, an
    optional [0x] prefix, then the longest run of digits; [NaN] when there
    is none.  It returns for every argument and never throws.  The value
    is kept as the exact integer (the callers below discard it). *)
Definition parseInt (s : string) : completion number :=
  let s := trim_start s in
  let '(sign, s) :=
    match s with
    | String "-" r => ((-1)%Z, r)
    | String "+" r => (1%Z, r)
    | _ => (1%Z, s)
    end in
  let '(radix, s) :=
    match s with
    | String "0" (String "x" r) => (16%Z, r)
    | String "0" (String "X" r) => (16%Z, r)
    | _ => (10%Z, s)
    end in
  match digits radix None s with
  | None => Normal NaN
  | Some z => Normal (Int (sign * z))
  end.

End Js.

(* ------------------------------------------------------------------ *)
(** ** Node's [path] module (POSIX flavour), as documented *)

Module Path.

Definition is_slash (c : ascii) : bool := bool_decide (c = "/"%char).
Definition is_dot (c : ascii) : bool := bool_decide (c = "."%char).

(** [s.split("/")]. *)
Fixpoint split (s : string) : list string :=
  match s with
  | EmptyString => [EmptyString]
  | String c r =>
      if is_slash c then EmptyString :: split r
      else match split r with
           | [] => [String c EmptyString]
           | h :: t => String c h :: t
           end
  end.

(** [segs.join("/")]. *)
Fixpoint render (segs : list string) : string :=
  match segs with
  | [] => ""
  | [s] => s
  | s :: rest => s +:+ "/" +:+ render rest
  end.

(** The last non-empty segment: the path component that [basename] and
    [extname] look at (trailing separators are ignored). *)
Fixpoint last_component (segs : list string) : string :=
  match segs with
  | [] => ""
  | s :: rest =>
      let l := last_component rest in
      if bool_decide (l = "") then s else l
  end.

Definition basename (p : string) : string := last_component (split p).

(** The suffix of [s] that starts at its right-most dot. *)
Fixpoint from_last_dot (s : string) : option string :=
  match s with
  | EmptyString => None
  | String c r =>
      match from_last_dot r with
      | Some e => Some e
      | None => if is_dot c then Some s else None
      end
  end.

(** [path.extname]: from the right-most dot of the last component to its
    end; empty when there is no dot, when the only dot is the component's
    first character, and for the component [..]. *)
Definition extname (p : string) : string :=
  match basename p with
  | EmptyString => ""
  | String c r =>
      match from_last_dot r with
      | Some e => if bool_decide (String c r = "..") then "" else e
      | None => ""
      end
  end.

(** One segment of [normalize]: empty and [.] segments vanish, [..]
    cancels the segment before it (or stays, above a relative root). *)
Definition norm_step (allowAboveRoot : bool) (stack : list string)
    (seg : string) : list string :=
  if bool_decide (seg = "") || bool_decide (seg = ".") then stack
  else if bool_decide (seg = "..") then
    match stack with
    | top :: below =>
        if bool_decide (top = "..") then seg :: stack else below
    | [] => if allowAboveRoot then [seg] else []
    end
  else seg :: stack.

Fixpoint endsWith_slash (p : string) : bool :=
  match p with
  | EmptyString => false
  | String c EmptyString => is_slash c
  | String _ r => endsWith_slash r
  end.

Definition isAbsolute (p : string) : bool :=
  match p with
  | String c _ => is_slash c
  | EmptyString => false
  end.

(** [path.normalize]. *)
Definition normalize (p : string) : string :=
  if bool_decide (p = "") then "."
  else
    let absolute := isAbsolute p in
    let trailing := endsWith_slash p in
    let res :=
      render (reverse (fold_left (norm_step (negb absolute)) (split p) [])) in
    if bool_decide (res = "") then
      if absolute then "/" else if trailing then "./" else "."
    else
      let res := if trailing then res +:+ "/" else res in
      if absolute then "/" +:+ res else res.

(** [path.join(...paths)]. *)
Definition join (paths : list string) : string :=
  let joined := render (filter (λ s, s ≠ "") paths) in
  if bool_decide (joined = "") then "." else normalize joined.

End Path.

(* ------------------------------------------------------------------ *)
(** ** [ImageProcessor.extractCode] *)

(** [/\.[^/.]+$/]: what must follow the dot, up to the end of the input. *)
Fixpoint extension_tail (s : string) : bool :=
  match s with
  | EmptyString => false
  | String c EmptyString => negb (Path.is_slash c || Path.is_dot c)
  | String c r => negb (Path.is_slash c || Path.is_dot c) && extension_tail r
  end.

(** [s.replace(/\.[^/.]+$/, "")]: the left-most match is removed. *)
Fixpoint strip_extension (s : string) : string :=
  match s with
  | EmptyString => EmptyString
  | String c r =>
      if Path.is_dot c && extension_tail r then EmptyString
      else String c (strip_extension r)
  end.

Definition extractCode (imagePath : string) : option string :=
  let code := strip_extension imagePath in
  match Js.parseInt code with
  | Js.Normal _ => Some code
  | Js.Throw _ => None
  end.


(* ------------------------------------------------------------------ *)
(** ** Data model *)

(** The pictographs that open the console messages and error messages. *)
Module Glyph.
Definition warning : string := "⚠️".
Definition check : string := "✓".
Definition information : string := "ℹ️".
Definition cross : string := "❌".
Definition success : string := "✅".
Definition arrow : string := "→".
Definition scan : string := "🔍".
Definition folder : string := "📁".
Definition chart : string := "📊".
Definition broom : string := "🧹".
Definition bin : string := "🗑️".
Definition trend : string := "📈".
Definition pin : string := "📌".
End Glyph.

Definition nl : string := String (Ascii.ascii_of_nat 10) "".

Definition defaultSupportedFormats : list string :=
  [".jpg"; ".jpeg"; ".png"; ".gif"; ".svg"].

(** The error classes of the workflow; [Error] is the built-in one. *)
Inductive ErrorClass :=
| Error
| ImageProcessingError
| FailedUploadError
| ImageValidationError
| ImageBankMatchError.

Record JsError := mkError { e_class : ErrorClass; message : string }.

(** [e instanceof c]: the three leaf classes extend [ImageProcessingError],
    which extends [Error]. *)
Definition instanceof (e : JsError) (c : ErrorClass) : bool :=
  match c, e_class e with
  | Error, _ => true
  | ImageProcessingError, Error => false
  | ImageProcessingError, _ => true
  | FailedUploadError, FailedUploadError => true
  | ImageValidationError, ImageValidationError => true
  | ImageBankMatchError, ImageBankMatchError => true
  | _, _ => false
  end.

Module ImageInfo.
Record t := mk {
  path : string;
  name : string;
  code : option string;
  extension : string;
  size : Z;
  sizeFormatted : string;
  type : string;
  isSupported : bool;
  created : Z;
  modified : Z;
  isValidSize : bool;
}.

Definition set_code (c : option string) (i : t) : t :=
  mk (path i) (name i) c (extension i) (size i) (sizeFormatted i) (type i)
     (isSupported i) (created i) (modified i) (isValidSize i).
End ImageInfo.

Module Bank.
(** Modelled from the spec: the declaration of the type [Bank] is not part
    of the sources; the workflow reads the fields [code], [nipBankCode],
    [name] and [icon] of a registry record, the icon being optional. *)
Record t := mk {
  name : string;
  code : string;
  nipBankCode : string;
  icon : option string;
}.

Definition set_icon (u : option string) (b : t) : t :=
  mk (name b) (code b) (nipBankCode b) u.
End Bank.

Record R2Config := {
  accessKeyId : string;
  secretAccessKey : string;
  accountId : string;
  bucketName : string;
  publicDomain : string;
}.

Record S3Client := {
  region : string;
  endpoint : string;
  credentials : string * string;
}.

Record ProcessorOptions := {
  o_supportedFormats : option (list string);
  o_maxFileSize : option Z;
  o_minFileSize : option Z;
  o_banksFilePath : option string;
  o_r2Config : option R2Config;
  o_isCI : bool;
}.

Record SkipEntry := { sk_name : string; sk_reason : string }.

Record ImageProcessReport := {
  skipped : list SkipEntry;
  failed_upload : list string;
  completed : list string;
}.

Record ProcessResult := {
  processed : nat;
  results : list ImageInfo.t;
  total : nat;
  imageProcessReport : ImageProcessReport;
}.

(** The fields of an [ImageProcessor] object. *)
Record ImageProcessor := {
  supportedFormats : list string;
  maxFileSize : Z;
  minFileSize : Z;
  mimeTypes : gmap string string;
  banksFilePath : string;
  banks : list Bank.t;
  r2Config : option R2Config;
  s3Client : option S3Client;
  isCI : bool;
}.

Definition set_banks (bs : list Bank.t) (p : ImageProcessor) : ImageProcessor :=
  {| supportedFormats := supportedFormats p; maxFileSize := maxFileSize p;
     minFileSize := minFileSize p; mimeTypes := mimeTypes p;
     banksFilePath := banksFilePath p; banks := bs; r2Config := r2Config p;
     s3Client := s3Client p; isCI := isCI p |}.

(** [n || d] on an optional number: [undefined] and [0] are falsy. *)
Definition number_or (n : option Z) (d : Z) : Z :=
  match n with
  | Some z => if (z =? 0)%Z then d else z
  | None => d
  end.

(** [s || d] on an optional string: [undefined] and the empty string are
    falsy. *)
Definition string_or (s : option string) (d : string) : string :=
  if Js.truthy s then Js.show s d else d.

(* ------------------------------------------------------------------ *)
(** ** The outside world *)

(** Settlement of an awaited promise: resolved with a value, or rejected
    with an error whose [message] may be absent. *)
Inductive outcome (A : Type) :=
| Resolved (a : A)
| Rejected (message : option string).
Arguments Resolved {A} a.
Arguments Rejected {A} message.

Record Stats := { st_size : Z; birthtime : Z; mtime : Z }.

Record Dirent := { d_name : string; d_isFile : bool }.

Record PutObjectCommand := {
  Bucket : string;
  Key : string;
  Body : string;
  ContentType : string;
  CacheControl : string;
}.

(** Calls that leave the process. *)
Inductive Call :=
| Stat (p : string)
| Readdir (directory : string)
| ReadFile (p : string)
| WriteFile (p : string) (data : string)
| Unlink (p : string)
| Send (client : S3Client) (command : PutObjectCommand).

Inductive Level := Log | Warn | Err | Info.

(** What the file system and the object store answer, as functions of a
    state of the world that every call may change; [path_resolve] depends
    on the working directory of the process. *)
Record Host (World : Type) := {
  fs_stat : string → World → outcome Stats * World;
  fs_readdir : string → World → outcome (list Dirent) * World;
  fs_readFile : string → World → outcome string * World;
  fs_unlink : string → World → outcome () * World;
  s3_send : S3Client → PutObjectCommand → World → outcome () * World;
  path_resolve : list string → string;
}.
Arguments fs_stat {World} _ _ _.
Arguments fs_readdir {World} _ _ _.
Arguments fs_readFile {World} _ _ _.
Arguments fs_unlink {World} _ _ _.
Arguments s3_send {World} _ _ _ _.
Arguments path_resolve {World} _ _.

(** The state the methods run in: the processor object ([this]), the world,
    what was written to the console and the calls made so far. *)
Record Machine (World : Type) := {
  self : ImageProcessor;
  world : World;
  console : list (Level * string);
  calls : list Call;
}.
Arguments self {World} _.
Arguments world {World} _.
Arguments console {World} _.
Arguments calls {World} _.

Definition M (World A : Type) : Type := Machine World → A * Machine World.

Definition ret {World A} (a : A) : M World A := λ m, (a, m).

Definition bind {World A B} (c : M World A) (k : A → M World B) : M World B :=
  λ m, let '(a, m') := c m in k a m'.

Global Instance M_ret {World} : MRet (M World) := @ret World.
Global Instance M_bind {World} : MBind (M World) :=
  λ A B k c, bind c k.

Definition get_self {World} : M World ImageProcessor := λ m, (self m, m).

Definition put_self {World} (p : ImageProcessor) : M World () :=
  λ m, (tt, {| self := p; world := world m; console := console m;
               calls := calls m |}).

Definition write_console {World} (l : Level) (line : string) : M World () :=
  λ m, (tt, {| self := self m; world := world m;
               console := console m ++ [(l, line)]; calls := calls m |}).

Definition perform {World A} (c : Call) (op : World → outcome A * World)
    : M World (outcome A) :=
  λ m, let '(r, w) := op (world m) in
       (r, {| self := self m; world := w; console := console m;
              calls := calls m ++ [c] |}).

(** The result of [processImage]: an icon URL (whatever the matched record
    holds, possibly nothing), or an error object. *)
Inductive ImageResult :=
| Icon (url : option string)
| Failure (e : JsError).

(* ------------------------------------------------------------------ *)
(** ** The methods of [ImageProcessor] *)

Section Methods.
Context {World : Type} (host : Host World).

(** [formatFileSize] goes through floating-point logarithms and
    [toFixed]; only the text it returns is used, and only in messages. *)
Context (formatFileSize : Z → string).

Local Abbreviation M := (M World).

(** [new ImageProcessor(options)] followed by [loadBanksData()], whose
    [JSON.parse] of the banks file is taken as the list [registry]. *)
Definition new_ImageProcessor (options : ProcessorOptions)
    (registry : list Bank.t) : ImageProcessor :=
  {| banksFilePath :=
       string_or (o_banksFilePath options)
         (path_resolve host ["./_data/banks.json"]);
     supportedFormats :=
       default defaultSupportedFormats (o_supportedFormats options);
     maxFileSize := number_or (o_maxFileSize options) (100 * 1024);
     minFileSize := number_or (o_minFileSize options) 1024;
     isCI := o_isCI options;
     r2Config := o_r2Config options;
     s3Client :=
       match o_r2Config options with
       | Some cfg =>
           Some {| region := "auto";
                   endpoint := "https://" +:+ accountId cfg
                               +:+ ".r2.cloudflarestorage.com";
                   credentials := (accessKeyId cfg, secretAccessKey cfg) |}
       | None => None
       end;
     mimeTypes :=
       list_to_map
         [(".jpg", "image/jpeg"); (".jpeg", "image/jpeg");
          (".png", "image/png"); (".gif", "image/gif");
          (".webp", "image/webp"); (".svg", "image/svg+xml");
          (".bmp", "image/bmp"); (".ico", "image/x-icon");
          (".tiff", "image/tiff"); (".tif", "image/tiff")];
     banks := registry |}.

Definition includes_format (ext : string) (formats : list string) : bool :=
  bool_decide (ext ∈ formats).

Definition getImageInfo (imagePath : string) : M (option ImageInfo.t) :=
  r ← perform (Stat imagePath) (fs_stat host imagePath);
  match r with
  | Resolved stats =>
      this ← get_self;
      let ext := Js.toLowerCase (Path.extname imagePath) in
      let basename := Path.basename imagePath in
      let code := extractCode basename in
      mret (Some
        {| ImageInfo.path := imagePath;
           ImageInfo.name := basename;
           ImageInfo.code := code;
           ImageInfo.extension := ext;
           ImageInfo.size := st_size stats;
           ImageInfo.sizeFormatted := formatFileSize (st_size stats);
           ImageInfo.type := string_or (mimeTypes this !! ext) "unknown";
           ImageInfo.isSupported := includes_format ext (supportedFormats this);
           ImageInfo.created := birthtime stats;
           ImageInfo.modified := mtime stats;
           ImageInfo.isValidSize :=
             (minFileSize this <=? st_size stats)%Z
             && (st_size stats <=? maxFileSize this)%Z |})
  | Rejected e =>
      write_console Err
        ("Error processing " +:+ imagePath +:+ ": "
         +:+ Js.show e "undefined");;
      mret None
  end.

Definition push_skipped (n reason : string) (r : ImageProcessReport)
    : ImageProcessReport :=
  {| skipped := skipped r ++ [{| sk_name := n; sk_reason := reason |}];
     failed_upload := failed_upload r; completed := completed r |}.

Definition push_failed_upload (n : string) (r : ImageProcessReport)
    : ImageProcessReport :=
  {| skipped := skipped r; failed_upload := failed_upload r ++ [n];
     completed := completed r |}.

Definition push_completed (n : string) (r : ImageProcessReport)
    : ImageProcessReport :=
  {| skipped := skipped r; failed_upload := failed_upload r;
     completed := completed r ++ [n] |}.

(** The loop of [getAllImageFiles] over the directory entries. *)
Fixpoint scanEntries (this : ImageProcessor) (directory : string)
    (entries : list Dirent) (imageFiles : list string)
    (report : ImageProcessReport) : list string * ImageProcessReport :=
  match entries with
  | [] => (imageFiles, report)
  | entry :: rest =>
      if d_isFile entry then
        let ext := Js.toLowerCase (Path.extname (d_name entry)) in
        if includes_format ext (supportedFormats this) then
          let fullPath := Path.join [directory; d_name entry] in
          scanEntries this directory rest (imageFiles ++ [fullPath]) report
        else
          scanEntries this directory rest imageFiles
            (push_skipped (d_name entry)
               (Glyph.warning +:+ "  Unsupported format: " +:+ ext) report)
      else scanEntries this directory rest imageFiles report
  end.

Definition getAllImageFiles (directory : string)
    (report : ImageProcessReport) : M (list string * ImageProcessReport) :=
  r ← perform (Readdir directory) (fs_readdir host directory);
  match r with
  | Resolved entries =>
      this ← get_self;
      mret (scanEntries this directory entries [] report)
  | Rejected e =>
      write_console Err
        ("Error reading directory " +:+ directory +:+ ": "
         +:+ Js.show e "undefined");;
      mret ([], report)
  end.

Definition logImageInfo (info : ImageInfo.t) : M () :=
  let status :=
    if ImageInfo.isSupported info && ImageInfo.isValidSize info
    then Glyph.check else Glyph.warning in
  write_console Log
    (status +:+ " " +:+ ImageInfo.name info +:+ " | " +:+ ImageInfo.type info
     +:+ " | " +:+ ImageInfo.sizeFormatted info).

Definition uploadToR2 (imageInfo : ImageInfo.t) : M (string + JsError) :=
  this ← get_self;
  match s3Client this, r2Config this with
  | Some client, Some cfg =>
      buffer ← perform (ReadFile (ImageInfo.path imageInfo))
                 (fs_readFile host (ImageInfo.path imageInfo));
      match buffer with
      | Resolved fileBuffer =>
          let fileName := Js.show (ImageInfo.code imageInfo) "null" in
          let key := "logo/" +:+ fileName in
          let uploadParams :=
            {| Bucket := bucketName cfg;
               Key := key;
               Body := fileBuffer;
               ContentType := ImageInfo.type imageInfo;
               CacheControl := "public, max-age=31536000" |} in
          sent ← perform (Send client uploadParams)
                   (s3_send host client uploadParams);
          match sent with
          | Resolved _ =>
              let publicUrl := publicDomain cfg +:+ "/" +:+ key in
              write_console Log
                (Glyph.check +:+ " Uploaded: " +:+ fileName +:+ " "
                 +:+ Glyph.arrow +:+ " " +:+ publicUrl);;
              mret (inl publicUrl)
          | Rejected e =>
              mret (inr (mkError Error
                ("Failed to upload image to R2: "
                 +:+ Js.show e "Unknown error")))
          end
      | Rejected e =>
          mret (inr (mkError Error
            ("Failed to upload image to R2: " +:+ Js.show e "Unknown error")))
      end
  | _, _ =>
      write_console Err "R2 client not configured";;
      mret (inr (mkError Error "R2 client not configured"))
  end.

(** The predicate of [findIndex]: the record's [code] or its
    [nipBankCode] is the descriptor's code. *)
Definition bank_matches (c : string) (bank : Bank.t) : Prop :=
  Bank.code bank = c ∨ Bank.nipBankCode bank = c.

Global Instance bank_matches_dec c bank : Decision (bank_matches c bank).
Proof. unfold bank_matches. apply _. Defined.

(** A non-empty icon that is not the placeholder. *)
Definition has_own_icon (bank : Bank.t) : bool :=
  Js.truthy (Bank.icon bank)
  && negb (Js.includes "default-image" (Js.show (Bank.icon bank) "")).

(** [processImage] returns its result together with the descriptor, whose
    [code] it overwrites once a record matches. *)
Definition processImage (info : ImageInfo.t) : M (ImageInfo.t * ImageResult) :=
  if negb (ImageInfo.isSupported info) then
    let msg :=
      Glyph.warning +:+ "  Unsupported format: " +:+ ImageInfo.type info in
    write_console Warn msg;;
    mret (info, Failure (mkError ImageValidationError msg))
  else if negb (Js.truthy (ImageInfo.code info)) then
    let msg := Glyph.warning +:+ "  No code found: " +:+ ImageInfo.name info in
    write_console Warn msg;;
    mret (info, Failure (mkError ImageBankMatchError msg))
  else if negb (ImageInfo.isValidSize info) then
    this ← get_self;
    let detail :=
      ImageInfo.name info +:+ " (" +:+ ImageInfo.sizeFormatted info +:+ ")" in
    (if (ImageInfo.size info >? maxFileSize this)%Z
     then write_console Warn (Glyph.warning +:+ "  File too large: " +:+ detail)
     else write_console Warn (Glyph.warning +:+ "  File too small: " +:+ detail));;
    mret (info, Failure (mkError ImageValidationError
                           (Glyph.warning +:+ "  Invalid size: " +:+ detail)))
  else
    this ← get_self;
    match list_find (bank_matches (Js.show (ImageInfo.code info) ""))
            (banks this) with
    | None =>
        let msg :=
          Glyph.warning +:+ "  No bank found: " +:+ ImageInfo.name info in
        write_console Warn msg;;
        mret (info, Failure (mkError ImageBankMatchError msg))
    | Some (bankIndex, bankMatch) =>
        let info := ImageInfo.set_code (Some (Bank.nipBankCode bankMatch)) info in
        if has_own_icon bankMatch then
          write_console Info
            (Glyph.information +:+ "  " +:+ Bank.name bankMatch
             +:+ " already has an icon");;
          mret (info, Icon (Bank.icon bankMatch))
        else if isCI this then
          mret (info, Icon (Bank.icon bankMatch))
        else
          imageUrl ← uploadToR2 info;
          match imageUrl with
          | inr e =>
              write_console Err (message e);;
              mret (info, Failure (mkError FailedUploadError (message e)))
          | inl url =>
              this ← get_self;
              put_self
                (set_banks
                   (alter (Bank.set_icon (Some url)) bankIndex (banks this))
                   this);;
              mret (info, Icon (Some url))
          end
    end.

(** The [for] loop of [processDirectory].  The descriptor is pushed to
    [results] before [processImage] overwrites its [code]; the array holds
    the same object, so the list is given the descriptor as
    [processImage] leaves it. *)
Fixpoint processFiles (verbose : bool) (imageFiles : list string)
    (results : list ImageInfo.t) (processed : nat)
    (report : ImageProcessReport)
    : M (list ImageInfo.t * nat * ImageProcessReport) :=
  match imageFiles with
  | [] => mret (results, processed, report)
  | imagePath :: rest =>
      found ← getImageInfo imagePath;
      match found with
      | Some info =>
          (if verbose then logImageInfo info else mret tt);;
          '(info, imageResult) ← processImage info;
          let results := results ++ [info] in
          match imageResult with
          | Failure e =>
              if instanceof e ImageValidationError then
                processFiles verbose rest results processed
                  (push_skipped (ImageInfo.name info) (message e) report)
              else if instanceof e FailedUploadError then
                processFiles verbose rest results processed
                  (push_failed_upload (ImageInfo.name info) report)
              else if instanceof e ImageBankMatchError then
                processFiles verbose rest results processed
                  (push_skipped (ImageInfo.name info) (message e) report)
              else
                processFiles verbose rest results processed
                  (push_skipped (ImageInfo.name info) (message e) report)
          | Icon _ =>
              processFiles verbose rest results (S processed)
                (push_completed (ImageInfo.name info) report)
          end
      | None => processFiles verbose rest results processed report
      end
  end.

Definition processDirectory (directory : string) (verbose : bool)
    : M ProcessResult :=
  write_console Log (Glyph.scan +:+ " Scanning directory: " +:+ directory);;
  let report := {| skipped := []; failed_upload := []; completed := [] |} in
  '(imageFiles, report) ← getAllImageFiles directory report;
  if bool_decide (length imageFiles = 0) then
    write_console Log (Glyph.cross +:+ " No supported image files found");;
    mret {| processed := 0; results := []; total := 0;
            imageProcessReport := report |}
  else
    write_console Log
      (Glyph.folder +:+ " Found " +:+ pretty (length imageFiles)
       +:+ " supported image files");;
    '(results, processed, report) ← processFiles verbose imageFiles [] 0 report;
    write_console Log
      (Glyph.success +:+ " Processed " +:+ pretty processed
       +:+ " images successfully");;
    mret {| processed := processed; results := results;
            total := length imageFiles; imageProcessReport := report |}.

(** The deletion loop of [cleanup]. *)
Fixpoint deleteFiles (dirPath : string) (completedImages : list string)
    (deletedCount failedCount : nat) : M (nat * nat) :=
  match completedImages with
  | [] => mret (deletedCount, failedCount)
  | imagePath :: rest =>
      let target := path_resolve host [dirPath; imagePath] in
      r ← perform (Unlink target) (fs_unlink host target);
      match r with
      | Resolved _ =>
          write_console Log
            (Glyph.check +:+ " Deleted: " +:+ Path.basename imagePath);;
          deleteFiles dirPath rest (S deletedCount) failedCount
      | Rejected e =>
          write_console Err
            (Glyph.cross +:+ " Failed to delete " +:+ Path.basename imagePath
             +:+ ": " +:+ Js.show e "undefined");;
          deleteFiles dirPath rest deletedCount (S failedCount)
      end
  end.

(** The records as [cleanup] prepares them for the banks file. *)
Definition with_default_icon (cfg : option R2Config) (bank : Bank.t) : Bank.t :=
  Bank.set_icon
    (if Js.truthy (Bank.icon bank) then Bank.icon bank
     else Some (Js.show (publicDomain <$> cfg) "undefined"
                +:+ "/logo/default-image"))
    bank.

(** [cleanup]: the call of [fs.writeFile] is commented out in the source,
    so the [try] block only writes its line to the console. *)
Definition cleanup (completedImages : list string) : M (option JsError) :=
  write_console Log (nl +:+ Glyph.broom +:+ " Starting cleanup...");;
  this ← get_self;
  let updatedBanks := with_default_icon (r2Config this) <$> banks this in
  write_console Log
    (Glyph.check +:+ " Updated " +:+ banksFilePath this +:+ " with "
     +:+ pretty (length updatedBanks) +:+ " banks");;
  if bool_decide (length completedImages = 0) then
    write_console Log (Glyph.information +:+ "  No images to delete");;
    mret None
  else
    write_console Log
      (Glyph.bin +:+ "  Deleting " +:+ pretty (length completedImages)
       +:+ " processed images...");;
    let dirPath := path_resolve host ["./_data/images"] in
    '(deletedCount, failedCount) ← deleteFiles dirPath completedImages 0 0;
    write_console Log (nl +:+ Glyph.chart +:+ " Cleanup Summary:");;
    write_console Log
      ("  " +:+ Glyph.check +:+ " Successfully deleted: "
       +:+ pretty deletedCount +:+ " files");;
    if bool_decide (0 < failedCount) then
      mret (Some (mkError Error
        ("Failed to delete " +:+ pretty failedCount +:+ " out of "
         +:+ pretty (length completedImages) +:+ " files")))
    else
      write_console Log (Glyph.success +:+ " Cleanup completed successfully");;
      mret None.
End Methods.

(* ------------------------------------------------------------------ *)
(** ** A small concrete world *)

Module Demo.

(** Files (by absolute path) with their sizes, the entries of the image
    directory, files that refuse to be deleted, and whether the object
    store accepts writes.  The working directory is [/repo]. *)
Record World := {
  files : list (string * Z);
  entries : list Dirent;
  locked : list string;
  store_up : bool;
}.

Definition resolve (segments : list string) : string :=
  let joined := Path.join segments in
  if Path.isAbsolute joined then joined else Path.join ["/repo"; joined].

Definition size_of (p : string) (w : World) : option Z :=
  (λ r, snd (snd r)) <$> list_find (λ f, fst f = resolve [p]) (files w).

Definition remove_file (p : string) (w : World) : World :=
  {| files := filter (λ f, fst f ≠ resolve [p]) (files w);
     entries := entries w; locked := locked w; store_up := store_up w |}.

Definition host : Host World :=
  {| fs_stat p w :=
       match size_of p w with
       | Some n => (Resolved {| st_size := n; birthtime := 0; mtime := 0 |}, w)
       | None => (Rejected (Some "ENOENT: no such file or directory"), w)
       end;
     fs_readdir d w := (Resolved (entries w), w);
     fs_readFile p w :=
       match size_of p w with
       | Some _ => (Resolved "<bytes>", w)
       | None => (Rejected (Some "ENOENT: no such file or directory"), w)
       end;
     fs_unlink p w :=
       if bool_decide (resolve [p] ∈ locked w)
       then (Rejected (Some "EACCES: permission denied"), w)
       else match size_of p w with
            | Some _ => (Resolved tt, remove_file p w)
            | None => (Rejected (Some "ENOENT: no such file or directory"), w)
            end;
     s3_send client command w :=
       if store_up w then (Resolved tt, w)
       else (Rejected (Some "connect ETIMEDOUT"), w);
     path_resolve := resolve |}.

Definition formatFileSize (bytes : Z) : string := pretty bytes +:+ " B".

Definition registry : list Bank.t :=
  [ Bank.mk "Ten Bank" "10" "000010" None;
    Bank.mk "Seventy Seven" "077" "77" (Some "https://cdn/logo/77");
    Bank.mk "Placeholder Bank" "078" "78" (Some "https://cdn/logo/default-image");
    Bank.mk "Ten Again" "010" "10" (Some "https://cdn/logo/other") ].

Definition r2 : R2Config :=
  {| accessKeyId := "key"; secretAccessKey := "secret"; accountId := "acct";
     bucketName := "logos"; publicDomain := "https://cdn" |}.

Definition options (cfg : option R2Config) (ci : bool) : ProcessorOptions :=
  {| o_supportedFormats := None; o_maxFileSize := Some (5 * 1024 * 1024)%Z;
     o_minFileSize := Some 1024%Z; o_banksFilePath := None;
     o_r2Config := cfg; o_isCI := ci |}.

Definition processor (cfg : option R2Config) (ci : bool) : ImageProcessor :=
  new_ImageProcessor host (options cfg ci) registry.

Definition start (p : ImageProcessor) (w : World) : Machine World :=
  {| self := p; world := w; console := []; calls := [] |}.

Definition images : World :=
  {| files := [("/repo/_data/images/10.jpg", 2048%Z);
               ("/repo/_data/images/78.png", 4096%Z);
               ("/repo/_data/images/77.png", 4096%Z);
               ("/repo/_data/images/logo-a.png", 4096%Z);
               ("/repo/_data/images/5.png", 12%Z);
               ("/repo/_data/images/20.png", 4096%Z);
               ("/repo/_data/images/11.png", (5 * 1024 * 1024)%Z);
               ("/repo/_data/images/12.png", (5 * 1024 * 1024 + 1)%Z);
               ("/repo/_data/images/13.png", 1023%Z)];
     entries := [ {| d_name := "10.jpg"; d_isFile := true |};
                  {| d_name := "78.png"; d_isFile := true |};
                  {| d_name := "notes.txt"; d_isFile := true |};
                  {| d_name := "77.png"; d_isFile := true |};
                  {| d_name := "logo-a.png"; d_isFile := true |};
                  {| d_name := "5.png"; d_isFile := true |};
                  {| d_name := "old"; d_isFile := false |} ];
     locked := ["/repo/_data/images/20.png"];
     store_up := true |}.

Definition descriptor (file : string) (c : option string) (bytes : Z)
    (mime : string) (supported valid : bool) : ImageInfo.t :=
  {| ImageInfo.path := "_data/images/" +:+ file; ImageInfo.name := file;
     ImageInfo.code := c;
     ImageInfo.extension := Js.toLowerCase (Path.extname file);
     ImageInfo.size := bytes; ImageInfo.sizeFormatted := formatFileSize bytes;
     ImageInfo.type := mime; ImageInfo.isSupported := supported;
     ImageInfo.created := 0; ImageInfo.modified := 0;
     ImageInfo.isValidSize := valid |}.

Definition ten_jpg := descriptor "10.jpg" (Some "10") 2048 "image/jpeg" true true.
Definition ten_bmp := descriptor "10.bmp" (Some "10") 2048 "image/bmp" false true.
Definition nameless := descriptor ".hidden.png" None 2048 "image/png" true true.
Definition five_png := descriptor "5.png" (Some "5") 12 "image/png" true false.
Definition logo_a := descriptor "logo-a.png" (Some "logo-a") 4096 "image/png" true true.
Definition seventy_seven := descriptor "77.png" (Some "77") 4096 "image/png" true true.
Definition seventy_eight := descriptor "78.png" (Some "78") 4096 "image/png" true true.

Definition ten_bank : Bank.t := Bank.mk "Ten Bank" "10" "000010" None.
Definition bank_77 : Bank.t :=
  Bank.mk "Seventy Seven" "077" "77" (Some "https://cdn/logo/77").
Definition bank_78 : Bank.t :=
  Bank.mk "Placeholder Bank" "078" "78" (Some "https://cdn/logo/default-image").

(** A full run, a CI run, and a run without storage configuration. *)
Definition live : Machine World := start (processor (Some r2) false) images.
Definition ci : Machine World := start (processor (Some r2) true) images.
Definition unconfigured : Machine World := start (processor None false) images.

Definition no_report : ImageProcessReport :=
  {| skipped := []; failed_upload := []; completed := [] |}.

End Demo.

(* ------------------------------------------------------------------ *)
(** ** Notions used by the statements *)

(** A name as [readdir] reports it: one path component, neither empty nor
    one of the two dot entries. *)
Fixpoint has_slash (s : string) : bool :=
  match s with
  | EmptyString => false
  | String c r => Path.is_slash c || has_slash r
  end.

Definition entry_name (n : string) : Prop :=
  n ≠ "" ∧ n ≠ "." ∧ n ≠ ".." ∧ has_slash n = false.

Global Instance entry_name_dec n : Decision (entry_name n).
Proof. unfold entry_name. apply _. Defined.

(** The three buckets of the report. *)
Inductive ReportBucket := Skipped | FailedUpload | Completed.

Global Instance ReportBucket_eq_dec : EqDecision ReportBucket.
Proof. solve_decision. Defined.

(** The names of the descriptors that a tagging sends to bucket [b], in
    encounter order. *)
Definition names_in (b : ReportBucket)
    (tagged : list (ImageInfo.t * ReportBucket))
    : list string :=
  (ImageInfo.name ∘ fst) <$> filter (λ x, snd x = b) tagged.

(** How many of the deletions of [targets], made in this order from the
    world [w], are rejected. *)
Fixpoint rejected_unlinks {World} (host : Host World) (targets : list string)
    (w : World) : nat :=
  match targets with
  | [] => 0
  | t :: rest =>
      match fs_unlink host t w with
      | (Resolved _, w') => rejected_unlinks host rest w'
      | (Rejected _, w') => S (rejected_unlinks host rest w')
      end
  end.

Definition is_write (c : Call) : bool :=
  match c with
  | WriteFile _ _ => true
  | _ => false
  end.

(** The bucket that the caller of [processImage] files a result under. *)
Definition bucket_of (res : ImageResult) : ReportBucket :=
  match res with
  | Icon _ => Completed
  | Failure e =>
      if instanceof e ImageValidationError then Skipped
      else if instanceof e FailedUploadError then FailedUpload
      else Skipped
  end.

Definition reason_of (res : ImageResult) : string :=
  match res with
  | Icon _ => ""
  | Failure e => message e
  end.

(** One more name in bucket [b] of a report. *)
Definition file_under (b : ReportBucket) (n reason : string)
    (r : ImageProcessReport) : ImageProcessReport :=
  match b with
  | Skipped => push_skipped n reason r
  | FailedUpload => push_failed_upload n r
  | Completed => push_completed n r
  end.

(** The report as the directory scan of [processDirectory] leaves it, before
    any descriptor is made. *)
Definition scan_report {World} (host : Host World) (directory : string)
    (m : Machine World) : ImageProcessReport :=
  let m1 :=
    snd (write_console Log
           (Glyph.scan +:+ " Scanning directory: " +:+ directory) m) in
  snd (fst (getAllImageFiles host directory
              {| skipped := []; failed_upload := []; completed := [] |} m1)).

(** The machine after one more line on the console. *)
Definition logged {World} (l : Level) (line : string) (m : Machine World)
    : Machine World :=
  snd (write_console l line m).

(** The machine after the icon of record [i] is set to [url]. *)
Definition with_icon {World} (i : nat) (url : string) (m : Machine World)
    : Machine World :=
  snd (put_self
         (set_banks (alter (Bank.set_icon (Some url)) i (banks (self m)))
            (self m)) m).

(** A descriptor that passes the format, code and size rules, with code
    [c]. *)
Definition passes_checks (info : ImageInfo.t) (c : string) : Prop :=
  ImageInfo.isSupported info = true
  ∧ ImageInfo.code info = Some c ∧ c ≠ ""
  ∧ ImageInfo.isValidSize info = true.

Global Instance passes_checks_dec info c : Decision (passes_checks info c).
Proof. unfold passes_checks. apply _. Defined.

Definition unsupported_message (info : ImageInfo.t) : string :=
  Glyph.warning +:+ "  Unsupported format: " +:+ ImageInfo.type info.

Definition no_code_message (info : ImageInfo.t) : string :=
  Glyph.warning +:+ "  No code found: " +:+ ImageInfo.name info.

Definition no_bank_message (info : ImageInfo.t) : string :=
  Glyph.warning +:+ "  No bank found: " +:+ ImageInfo.name info.

Definition size_message (kind : string) (info : ImageInfo.t) : string :=
  Glyph.warning +:+ kind +:+ ImageInfo.name info +:+ " ("
  +:+ ImageInfo.sizeFormatted info +:+ ")".

(** What [processImage] does once a record matched, the icon test failed
    and the run is not a CI run: it calls the upload gateway, and records
    the new URL on record [i] or reports the failure. *)
Definition upload_branch {World} (host : Host World) (info : ImageInfo.t)
    (i : nat) (bank : Bank.t) (m : Machine World)
    : ImageInfo.t * ImageResult * Machine World :=
  let info' := ImageInfo.set_code (Some (Bank.nipBankCode bank)) info in
  match uploadToR2 host info' m with
  | (inl url, m1) => ((info', Icon (Some url)), with_icon i url m1)
  | (inr e, m1) =>
      ((info', Failure (mkError FailedUploadError (message e))),
       logged Err (message e) m1)
  end.

(** The statement that a matched record whose icon carries the placeholder
    marker always sends [processImage] to the upload gateway. *)
Definition placeholder_always_uploads : Prop :=
  ∀ (World : Type) (host : Host World) (info : ImageInfo.t) (c : string)
    (i : nat) (bank : Bank.t) (u : string) (m : Machine World),
    passes_checks info c →
    list_find (bank_matches c) (banks (self m)) = Some (i, bank) →
    Bank.icon bank = Some u →
    Js.includes "default-image" u = true →
    processImage host info m = upload_branch host info i bank m.

(** The size rule of [processImage] on a descriptor that passed the format
    and code rules: the result is the invalid-size error, and the console
    gets the line of the given kind. *)
Definition size_rule_reports {World} (host : Host World) (kind : string)
    (info : ImageInfo.t) (this : ImageProcessor) : Prop :=
  ∀ m : Machine World,
    self m = this →
    ImageInfo.isSupported info = true →
    Js.truthy (ImageInfo.code info) = true →
    processImage host info m
    = ((info, Failure (mkError ImageValidationError
                         (size_message "  Invalid size: " info))),
       logged Warn (size_message kind info) m).

(** The directory listing, when it succeeds, holds entry names only. *)
Definition well_formed_listing {World} (host : Host World)
    (directory : string) (w : World) : Prop :=
  match fs_readdir host directory w with
  | (Resolved entries, _) => Forall (λ e, entry_name (d_name e)) entries
  | (Rejected _, _) => True
  end.

(** The extension of [p], lower-cased, is in the allow-list of [this]. *)
Definition supported_path (this : ImageProcessor) (p : string) : Prop :=
  includes_format (Js.toLowerCase (Path.extname p)) (supportedFormats this)
  = true.

(* ------------------------------------------------------------------ *)
(** ** The summary report *)

Module ReportData.
Record t := mk {
  total : nat;
  byType : list (string * nat);
  totalSize : Z;
  averageSize : Q;
  largestFile : option ImageInfo.t;
  smallestFile : option ImageInfo.t;
  unsupported : nat;
  invalidSize : nat;
}.
End ReportData.

(** [byType[key] = (byType[key] || 0) + 1] on an object whose keys are MIME
    types: a new key goes after the existing ones, which is the order in
    which [Object.entries] lists them. *)
Fixpoint count_type (key : string) (byType : list (string * nat))
    : list (string * nat) :=
  match byType with
  | [] => [(key, 1)]
  | (k, n) :: rest =>
      if bool_decide (k = key) then (k, n + 1) :: rest
      else (k, n) :: count_type key rest
  end.

(** The body of the [forEach] of [generateReport]. *)
Definition report_step (report : ReportData.t) (img : ImageInfo.t)
    : ReportData.t :=
  {| ReportData.total := ReportData.total report;
     ReportData.byType :=
       count_type (ImageInfo.type img) (ReportData.byType report);
     ReportData.totalSize :=
       (ReportData.totalSize report + ImageInfo.size img)%Z;
     ReportData.averageSize := ReportData.averageSize report;
     ReportData.largestFile :=
       match ReportData.largestFile report with
       | None => Some img
       | Some largest =>
           if (ImageInfo.size img >? ImageInfo.size largest)%Z
           then Some img else Some largest
       end;
     ReportData.smallestFile :=
       match ReportData.smallestFile report with
       | None => Some img
       | Some smallest =>
           if (ImageInfo.size img <? ImageInfo.size smallest)%Z
           then Some img else Some smallest
       end;
     ReportData.unsupported :=
       if ImageInfo.isSupported img then ReportData.unsupported report
       else S (ReportData.unsupported report);
     ReportData.invalidSize :=
       if ImageInfo.isValidSize img then ReportData.invalidSize report
       else S (ReportData.invalidSize report) |}.

(** [generateReport].  The average is kept as the exact quotient, which
    JavaScript rounds to a double. *)
Definition generateReport (results : list ImageInfo.t) : ReportData.t :=
  let report :=
    fold_left report_step results
      {| ReportData.total := length results; ReportData.byType := [];
         ReportData.totalSize := 0; ReportData.averageSize := 0;
         ReportData.largestFile := None; ReportData.smallestFile := None;
         ReportData.unsupported := 0; ReportData.invalidSize := 0 |} in
  {| ReportData.total := ReportData.total report;
     ReportData.byType := ReportData.byType report;
     ReportData.totalSize := ReportData.totalSize report;
     ReportData.averageSize :=
       if bool_decide (0 < length results)
       then (inject_Z (ReportData.totalSize report)
             / inject_Z (Z.of_nat (length results)))%Q
       else 0%Q;
     ReportData.largestFile := ReportData.largestFile report;
     ReportData.smallestFile := ReportData.smallestFile report;
     ReportData.unsupported := ReportData.unsupported report;
     ReportData.invalidSize := ReportData.invalidSize report |}.

(* ------------------------------------------------------------------ *)
(** ** The registry lookup helper *)

Module NgnBanksRegistry.
(** The class holds the parsed banks file in its field [banks]. *)
Definition getBanks (banks : list Bank.t) : list Bank.t := banks.

Definition getBankByCode (banks : list Bank.t) (code : string)
    : option Bank.t :=
  snd <$> list_find (λ bank, Bank.code bank = code) banks.
End NgnBanksRegistry.

(* ------------------------------------------------------------------ *)
(** ** Loading the registry, printing the report, and the two scripts *)

(** How a script ends: it runs to its end, or calls [process.exit]. *)
Inductive Exit :=
| Returned
| Exited (status : Z).

Section Scripts.
Context {World : Type} (host : Host World).

(** [formatFileSize] on a whole number of bytes and on the average, and
    the text that [console.log] prints for an array of skip entries and for
    an array of names; [JSON.parse] of the banks file, which throws on a
    malformed document. *)
Context (formatFileSize : Z → string) (formatAverage : Q → string).
Context (inspect_skipped : list SkipEntry → string).
Context (inspect_names : list string → string).
Context (JSON_parse : string → outcome (list Bank.t)).

Local Abbreviation M := (M World).

(** [loadBanksData]: the promise resolves, or rejects with the error that
    was caught, logged and thrown again. *)
Definition loadBanksData : M (outcome ()) :=
  this ← get_self;
  content ← perform (ReadFile (banksFilePath this))
              (fs_readFile host (banksFilePath this));
  match content with
  | Resolved banksContent =>
      match JSON_parse banksContent with
      | Resolved parsed =>
          put_self (set_banks parsed this);;
          write_console Log
            (Glyph.check +:+ " Loaded " +:+ pretty (length parsed)
             +:+ " banks from " +:+ banksFilePath this);;
          mret (Resolved tt)
      | Rejected e =>
          write_console Warn
            (Glyph.warning +:+ "  Could not load banks file: "
             +:+ Js.show e "undefined");;
          mret (Rejected e)
      end
  | Rejected e =>
      write_console Warn
        (Glyph.warning +:+ "  Could not load banks file: "
         +:+ Js.show e "undefined");;
      mret (Rejected e)
  end.

(** The [forEach] over [Object.entries(report.byType)]. *)
Fixpoint printByType (entries : list (string * nat)) : M () :=
  match entries with
  | [] => mret tt
  | (type, count) :: rest =>
      write_console Log ("  " +:+ type +:+ ": " +:+ pretty count +:+ " files");;
      printByType rest
  end.

Definition when (b : bool) (c : M ()) : M () := if b then c else mret tt.

Definition printReport (results : list ImageInfo.t)
    (imageProcessReport : ImageProcessReport) : M () :=
  let report := generateReport results in
  write_console Log (nl +:+ Glyph.chart +:+ " PROCESSING REPORT");;
  write_console Log "==================";;
  write_console Log
    ("Total files processed: " +:+ pretty (ReportData.total report));;
  write_console Log
    ("Skipped: " +:+ pretty (length (skipped imageProcessReport)));;
  write_console Log
    ("Total size: " +:+ formatFileSize (ReportData.totalSize report));;
  write_console Log
    ("Average size: " +:+ formatAverage (ReportData.averageSize report));;
  match ReportData.largestFile report with
  | Some largest =>
      write_console Log
        ("Largest file: " +:+ ImageInfo.name largest +:+ " ("
         +:+ ImageInfo.sizeFormatted largest +:+ ")")
  | None => mret tt
  end;;
  match ReportData.smallestFile report with
  | Some smallest =>
      write_console Log
        ("Smallest file: " +:+ ImageInfo.name smallest +:+ " ("
         +:+ ImageInfo.sizeFormatted smallest +:+ ")")
  | None => mret tt
  end;;
  write_console Log (nl +:+ Glyph.trend +:+ " By file type:");;
  printByType (ReportData.byType report);;
  when (bool_decide (0 < ReportData.unsupported report))
    (write_console Log
       (nl +:+ Glyph.warning +:+ "  Unsupported files: "
        +:+ pretty (ReportData.unsupported report)));;
  when (bool_decide (0 < ReportData.invalidSize report))
    (write_console Log
       (Glyph.warning +:+ "  Invalid size files: "
        +:+ pretty (ReportData.invalidSize report)));;
  when (bool_decide (0 < length (skipped imageProcessReport)))
    (write_console Log
       (nl +:+ Glyph.pin +:+ "  Skipped: "
        +:+ pretty (length (skipped imageProcessReport)) +:+ " files");;
     write_console Log (inspect_skipped (skipped imageProcessReport)));;
  when (bool_decide (0 < length (failed_upload imageProcessReport)))
    (write_console Log
       (nl +:+ Glyph.pin +:+ "  Failed upload: "
        +:+ pretty (length (failed_upload imageProcessReport)) +:+ " files");;
     write_console Log (inspect_names (failed_upload imageProcessReport))).

(** [scripts/ci.ts]: [main], given the environment of the process. *)
Definition ci_main (env : gmap string string) : M Exit :=
  let directory := string_or (env !! "IMAGE_DIRECTORY") "./_data/images" in
  put_self
    (new_ImageProcessor host
       {| o_supportedFormats := None; o_maxFileSize := Some (100 * 1024)%Z;
          o_minFileSize := Some 1024%Z; o_banksFilePath := None;
          o_r2Config := None;
          o_isCI := bool_decide (env !! "CI" = Some "true") |} []);;
  loaded ← loadBanksData;
  match loaded with
  | Resolved _ =>
      run ← processDirectory host formatFileSize directory false;
      let report := imageProcessReport run in
      let invalidImages :=
        filter (λ image, sk_name image ≠ "default-image.png") (skipped report) in
      if bool_decide (0 < length (skipped report))
         && bool_decide (0 < length invalidImages) then
        write_console Err (Glyph.cross +:+ " Some images failed validation:");;
        write_console Log (inspect_skipped invalidImages);;
        mret (Exited 1)
      else if bool_decide (length (completed report) = 0) then
        write_console Err (Glyph.cross +:+ " No new images to process");;
        mret (Exited 1)
      else
        write_console Log (Glyph.success +:+ " All images are valid.");;
        mret Returned
  | Rejected e =>
      write_console Err
        (Glyph.cross +:+ " CI script failed: " +:+ Js.show e "undefined");;
      mret (Exited 1)
  end.

(** The storage settings that [scripts/build.ts] reads from the
    environment: a missing variable gives the empty string. *)
Definition r2Config_of (env : gmap string string) : R2Config :=
  {| accessKeyId := string_or (env !! "R2_ACCESS_KEY_ID") "";
     secretAccessKey := string_or (env !! "R2_SECRET_ACCESS_KEY") "";
     accountId := string_or (env !! "R2_ACCOUNT_ID") "";
     bucketName := string_or (env !! "R2_BUCKET_NAME") "";
     publicDomain := string_or (env !! "R2_PUBLIC_DOMAIN") "" |}.

Definition incomplete (cfg : R2Config) : bool :=
  bool_decide (accessKeyId cfg = "") || bool_decide (secretAccessKey cfg = "")
  || bool_decide (accountId cfg = "") || bool_decide (bucketName cfg = "")
  || bool_decide (publicDomain cfg = "").

(** [scripts/build.ts]: [main], given the command-line arguments after the
    script name and the environment. *)
Definition build_main (args : list string) (env : gmap string string)
    : M Exit :=
  let directory := string_or (args !! 0) "./_data/images" in
  let r2Config := r2Config_of env in
  let isCI := bool_decide (env !! "CI" = Some "true") in
  if negb isCI && incomplete r2Config then
    write_console Err
      (Glyph.cross
       +:+ " Missing R2 configuration. Please set environment variables:");;
    write_console Err
      "R2_ACCESS_KEY_ID, R2_SECRET_ACCESS_KEY, R2_ACCOUNT_ID, R2_BUCKET_NAME, R2_PUBLIC_DOMAIN";;
    mret (Exited 1)
  else
    put_self
      (new_ImageProcessor host
         {| o_supportedFormats := None;
            o_maxFileSize := Some (5 * 1024 * 1024)%Z;
            o_minFileSize := Some 1024%Z; o_banksFilePath := None;
            o_r2Config := Some r2Config; o_isCI := isCI |} []);;
    loaded ← loadBanksData;
    match loaded with
    | Resolved _ =>
        run ← processDirectory host formatFileSize directory
                (negb (Js.truthy (env !! "CI")));
        printReport (results run) (imageProcessReport run);;
        if bool_decide (0 < length (completed (imageProcessReport run))) then
          cleanupError ← cleanup host (completed (imageProcessReport run));
          match cleanupError with
          | Some e =>
              write_console Err
                (Glyph.cross +:+ " Cleanup failed: " +:+ message e);;
              mret (Exited 1)
          | None => mret Returned
          end
        else mret Returned
    | Rejected e =>
        write_console Err
          (Glyph.cross +:+ " Script failed: " +:+ Js.show e "undefined");;
        mret (Exited 1)
    end.
End Scripts.

(* ------------------------------------------------------------------ *)
(** ** More notions for the statements *)

(** Calls that only look at the directory: [readdir] and [stat]. *)
Definition is_probe (c : Call) : bool :=
  match c with
  | Stat _ | Readdir _ => true
  | _ => false
  end.

Definition is_send (c : Call) : bool :=
  match c with
  | Send _ _ => true
  | _ => false
  end.

(** What a run may do to a record: its name and codes stay, and an icon of
    its own (not empty, not the placeholder) stays as well. *)
Definition icon_update (before after : Bank.t) : Prop :=
  Bank.name after = Bank.name before
  ∧ Bank.code after = Bank.code before
  ∧ Bank.nipBankCode after = Bank.nipBankCode before
  ∧ (has_own_icon before = true → after = before).

(** The entry is a regular file whose lower-cased extension is in the
    allow-list of [this]. *)
Definition scanned (this : ImageProcessor) (entry : Dirent) : Prop :=
  d_isFile entry = true
  ∧ includes_format (Js.toLowerCase (Path.extname (d_name entry)))
      (supportedFormats this) = true.

(** The entry is a regular file with another extension. *)
Definition refused (this : ImageProcessor) (entry : Dirent) : Prop :=
  d_isFile entry = true
  ∧ includes_format (Js.toLowerCase (Path.extname (d_name entry)))
      (supportedFormats this) = false.

Global Instance scanned_dec this entry : Decision (scanned this entry).
Proof. unfold scanned. apply _. Defined.

Global Instance refused_dec this entry : Decision (refused this entry).
Proof. unfold refused. apply _. Defined.

Definition refusal (entry : Dirent) : SkipEntry :=
  {| sk_name := d_name entry;
     sk_reason :=
       Glyph.warning +:+ "  Unsupported format: "
       +:+ Js.toLowerCase (Path.extname (d_name entry)) |}.

(** The command that [uploadToR2] sends for a descriptor whose code is
    [c]. *)
Definition logo_command (cfg : R2Config) (info : ImageInfo.t) (c : string)
    (buffer : string) : PutObjectCommand :=
  {| Bucket := bucketName cfg;
     Key := "logo/" +:+ c;
     Body := buffer;
     ContentType := ImageInfo.type info;
     CacheControl := "public, max-age=31536000" |}.

Definition upload_failure (e : option string) : JsError :=
  mkError FailedUploadError
    ("Failed to upload image to R2: " +:+ Js.show e "Unknown error").

(** The files that the directory scan of [processDirectory] returns. *)
Definition scan_files {World} (host : Host World) (directory : string)
    (m : Machine World) : list string :=
  let m1 :=
    snd (write_console Log
           (Glyph.scan +:+ " Scanning directory: " +:+ directory) m) in
  fst (fst (getAllImageFiles host directory
              {| skipped := []; failed_upload := []; completed := [] |} m1)).

(** The processor cannot upload: it runs in CI mode, or it has no storage
    client or no storage configuration. *)
Definition cannot_upload (this : ImageProcessor) : Prop :=
  isCI this = true ∨ s3Client this = None ∨ r2Config this = None.

Global Instance cannot_upload_dec this : Decision (cannot_upload this).
Proof. unfold cannot_upload. apply _. Defined.

(** The listing of the directory fails, or holds no regular file with an
    allowed extension. *)
Definition nothing_to_scan {World} (host : Host World) (directory : string)
    (m : Machine World) : Prop :=
  match (fs_readdir host directory (world m)).1 with
  | Resolved entries => filter (scanned (self m)) entries = []
  | Rejected _ => True
  end.

(** The sum of the sizes of the descriptors. *)
Definition sizes (results : list ImageInfo.t) : Z :=
  foldr (λ img acc, (ImageInfo.size img + acc)%Z) 0%Z results.



(** The five variables that [scripts/build.ts] needs outside CI. *)
Definition storage_variables : list string :=
  ["R2_ACCESS_KEY_ID"; "R2_SECRET_ACCESS_KEY"; "R2_ACCOUNT_ID";
   "R2_BUCKET_NAME"; "R2_PUBLIC_DOMAIN"].

(** The listing of the directory in world [w] fails, or holds no regular
    file whose extension is in [formats]. *)
Definition no_image_in {World} (host : Host World) (formats : list string)
    (directory : string) (w : World) : Prop :=
  match (fs_readdir host directory w).1 with
  | Resolved entries =>
      Forall (λ e, d_isFile e = true →
                   includes_format (Js.toLowerCase (Path.extname (d_name e)))
                     formats = false) entries
  | Rejected _ => True
  end.

(* ------------------------------------------------------------------ *)
(** ** More of the concrete world *)

Module Site.

(** The parser accepts what the concrete file system holds in every file. *)
Definition JSON_parse (content : string) : outcome (list Bank.t) :=
  if bool_decide (content = "<bytes>") then Resolved Demo.registry
  else Rejected (Some "Unexpected token in JSON").

Definition formatAverage (q : Q) : string :=
  pretty (Qnum q / Z.pos (Qden q))%Z +:+ " B".

Definition inspect_skipped (l : list SkipEntry) : string :=
  "[ " +:+ pretty (length l) +:+ " entries ]".

Definition inspect_names (l : list string) : string :=
  "[ " +:+ pretty (length l) +:+ " names ]".

Definition with_banks_file (w : Demo.World) : Demo.World :=
  {| Demo.files := ("/repo/_data/banks.json", 512%Z) :: Demo.files w;
     Demo.entries := Demo.entries w; Demo.locked := Demo.locked w;
     Demo.store_up := Demo.store_up w |}.

(** The image directory with the banks file in place; the same with an
    empty image directory; and the same with the object store down. *)
Definition images : Demo.World := with_banks_file Demo.images.

Definition no_images : Demo.World :=
  {| Demo.files := [("/repo/_data/banks.json", 512%Z)]; Demo.entries := [];
     Demo.locked := []; Demo.store_up := true |}.

Definition store_down : Demo.World :=
  {| Demo.files := Demo.files Demo.images;
     Demo.entries := Demo.entries Demo.images;
     Demo.locked := Demo.locked Demo.images; Demo.store_up := false |}.

Definition ci_env : gmap string string := {[ "CI" := "true" ]}.

Definition build_env : gmap string string :=
  list_to_map
    [("R2_ACCESS_KEY_ID", "key"); ("R2_SECRET_ACCESS_KEY", "secret");
     ("R2_ACCOUNT_ID", "acct"); ("R2_BUCKET_NAME", "logos");
     ("R2_PUBLIC_DOMAIN", "https://cdn")].

(** A machine before any script has run: the processor slot holds the
    processor that the script replaces. *)
Definition boot (w : Demo.World) : Machine Demo.World :=
  Demo.start (Demo.processor None false) w.

Definition client : S3Client :=
  {| region := "auto"; endpoint := "https://acct.r2.cloudflarestorage.com";
     credentials := ("key", "secret") |}.

(** A full run against the store that is down. *)
Definition offline : Machine Demo.World :=
  Demo.start (Demo.processor (Some Demo.r2) false) store_down.

Definition notes : Dirent := {| d_name := "notes.txt"; d_isFile := true |}.

Definition ci_main := ci_main Demo.host Demo.formatFileSize inspect_skipped JSON_parse.

Definition build_main :=
  build_main Demo.host Demo.formatFileSize formatAverage inspect_skipped
    inspect_names JSON_parse.

End Site.

(* ------------------------------------------------------------------ *)
(** ** Facts about paths *)

Section PathFacts.
Import Path.

Lemma append_cons x (a b : string) : String x a +:+ b = String x (a +:+ b).
Proof. reflexivity. Qed.

Lemma append_assoc (a b c : string) : (a +:+ b) +:+ c = a +:+ (b +:+ c).
Proof.
  induction a as [|x a IH]; [reflexivity|].
  by rewrite !append_cons, IH.
Qed.

Lemma append_empty (a b : string) : a +:+ b = "" → b = "".
Proof. destruct a; [tauto | rewrite append_cons; discriminate]. Qed.

Lemma split_not_nil s : split s ≠ [].
Proof.
  destruct s as [|c r]; simpl; [discriminate|].
  destruct (is_slash c); [discriminate|].
  destruct (split r); discriminate.
Qed.

Lemma split_component n : has_slash n = false → split n = [n].
Proof.
  induction n as [|c r IH]; simpl; [reflexivity|].
  intros [Hc Hr]%orb_false_elim. rewrite Hc, (IH Hr). reflexivity.
Qed.

Lemma split_append_slash a b :
  split (a +:+ "/" +:+ b) = split a ++ split b.
Proof.
  change ("/" +:+ b) with (String "/" b).
  induction a as [|c r IH]; [reflexivity|].
  rewrite append_cons. simpl.
  destruct (is_slash c); [by rewrite IH|].
  rewrite IH. pose proof (split_not_nil r) as Hr.
  destruct (split r); [congruence | reflexivity].
Qed.

Lemma last_component_snoc segs n :
  n ≠ "" → last_component (segs ++ [n]) = n.
Proof.
  intros Hn. induction segs as [|s segs IH]; simpl.
  - reflexivity.
  - rewrite IH. by rewrite bool_decide_eq_false_2.
Qed.

Lemma basename_component n : entry_name n → basename n = n.
Proof.
  intros (? & _ & _ & Hs). unfold basename.
  by rewrite (split_component n Hs).
Qed.

Lemma basename_under pre n :
  entry_name n → basename (pre +:+ "/" +:+ n) = n.
Proof.
  intros (Hn & _ & _ & Hs). unfold basename.
  rewrite split_append_slash, (split_component n Hs).
  by apply last_component_snoc.
Qed.

Lemma render_snoc segs n :
  render (segs ++ [n]) =
    match segs with
    | [] => n
    | _ => render segs +:+ "/" +:+ n
    end.
Proof.
  induction segs as [|s segs IH]; [reflexivity|].
  change ((s :: segs) ++ [n]) with (s :: (segs ++ [n])).
  destruct segs as [|s' segs]; [reflexivity|].
  change (render (s :: (s' :: segs) ++ [n]))
    with (s +:+ "/" +:+ render ((s' :: segs) ++ [n])).
  rewrite IH.
  change (render (s :: s' :: segs)) with (s +:+ "/" +:+ render (s' :: segs)).
  by rewrite !append_assoc.
Qed.

Lemma endsWith_slash_append a n :
  n ≠ "" → endsWith_slash (a +:+ n) = endsWith_slash n.
Proof.
  intros Hn. induction a as [|c a IH]; [reflexivity|].
  rewrite append_cons. simpl. rewrite IH.
  destruct (a +:+ n) eqn:E; [|reflexivity].
  apply append_empty in E. contradiction.
Qed.

Lemma endsWith_slash_component n : has_slash n = false → endsWith_slash n = false.
Proof.
  induction n as [|c r IH]; [reflexivity|].
  simpl. intros [Hc Hr]%orb_false_elim.
  destruct r; [exact Hc | by apply IH].
Qed.

Lemma norm_step_component allow stack n :
  entry_name n → norm_step allow stack n = n :: stack.
Proof.
  intros (H1 & H2 & H3 & _). unfold norm_step.
  by rewrite !bool_decide_eq_false_2.
Qed.

(** Normalising a path whose last segment is a plain name leaves that
    name as the last component. *)
Lemma normalize_keeps_name p segs n :
  entry_name n → split p = (segs ++ [n]) → endsWith_slash p = false →
  normalize p = n ∨ ∃ pre, normalize p = pre +:+ "/" +:+ n.
Proof.
  intros Hn Hsplit Htrail. pose proof Hn as (Hne & _).
  unfold normalize.
  destruct (bool_decide (p = "")) eqn:Hp.
  { apply bool_decide_eq_true in Hp. subst p. simpl in Hsplit.
    destruct segs as [|? [|? ?]]; simplify_eq/=; congruence. }
  rewrite Hsplit, fold_left_app. simpl.
  rewrite norm_step_component by done.
  rewrite reverse_cons, render_snoc, Htrail.
  set (stack := reverse _).
  destruct stack as [|s stack].
  - rewrite bool_decide_eq_false_2 by done.
    destruct (isAbsolute p); [right; by exists "" | by left].
  - rewrite bool_decide_eq_false_2.
    + destruct (isAbsolute p); right.
      * exists ("/" +:+ render (s :: stack)). reflexivity.
      * by eexists.
    + intros E. apply append_empty in E. discriminate.
Qed.

Lemma join_keeps_name directory n :
  entry_name n →
  join [directory; n] = n
  ∨ ∃ pre, join [directory; n] = pre +:+ "/" +:+ n.
Proof.
  intros Hn. pose proof Hn as (Hne & _ & _ & Hs).
  unfold join.
  destruct (decide (directory = "")) as [->|Hd].
  - rewrite filter_cons_False by (intros ?; done).
    rewrite filter_cons_True by done. simpl.
    rewrite bool_decide_eq_false_2 by done.
    apply (normalize_keeps_name n [] n); [done| |].
    + by apply split_component.
    + by apply endsWith_slash_component.
  - rewrite !filter_cons_True by done. simpl.
    rewrite bool_decide_eq_false_2.
    2:{ intros E. apply append_empty in E. discriminate. }
    apply (normalize_keeps_name _ (split directory) n); [done| |].
    + by rewrite split_append_slash, (split_component n).
    + rewrite <- append_assoc, endsWith_slash_append by done.
      by apply endsWith_slash_component.
Qed.

Lemma basename_join directory n :
  entry_name n → basename (join [directory; n]) = n.
Proof.
  intros Hn. destruct (join_keeps_name directory n Hn) as [->|[pre ->]].
  - by apply basename_component.
  - by apply basename_under.
Qed.

Lemma extname_join directory n :
  entry_name n → extname (join [directory; n]) = extname n.
Proof.
  intros Hn. unfold extname.
  by rewrite basename_join, basename_component.
Qed.
End PathFacts.

(* ------------------------------------------------------------------ *)
(** ** Running the methods *)

Ltac run_step :=
  unfold mbind, M_bind, bind, mret, M_ret, ret, write_console, get_self,
    put_self, perform in *.

Ltac run := run_step; simpl in *.

Lemma parseInt_returns s : ∃ v, Js.parseInt s = Js.Normal v.
Proof.
  unfold Js.parseInt.
  repeat case_match; eauto.
Qed.

Lemma extractCode_strip imagePath :
  extractCode imagePath = Some (strip_extension imagePath).
Proof.
  unfold extractCode.
  destruct (parseInt_returns (strip_extension imagePath)) as [v ->].
  reflexivity.
Qed.

Section Properties.
Context {World : Type} (host : Host World) (formatFileSize : Z → string).


(** *** The loop of [processDirectory], one file at a time *)

Lemma processFiles_nil verbose results processed report (m : Machine World) :
  processFiles host formatFileSize verbose [] results processed report m
  = ((results, processed, report), m).
Proof. reflexivity. Qed.

Lemma processFiles_missing verbose imagePath rest results processed report
    (m m1 : Machine World) :
  getImageInfo host formatFileSize imagePath m = (None, m1) →
  processFiles host formatFileSize verbose (imagePath :: rest) results processed report m
  = processFiles host formatFileSize verbose rest results processed report m1.
Proof. intros E. simpl. run_step. by rewrite E. Qed.

Lemma processFiles_found (verbose : bool) imagePath rest results processed report
    (m m1 m2 : Machine World) info info' res :
  getImageInfo host formatFileSize imagePath m = (Some info, m1) →
  processImage host info
    (snd ((if verbose then logImageInfo info else ret tt) m1))
  = ((info', res), m2) →
  processFiles host formatFileSize verbose (imagePath :: rest) results processed report m
  = processFiles host formatFileSize verbose rest (results ++ [info'])
      (match res with Icon _ => S processed | Failure _ => processed end)
      (file_under (bucket_of res) (ImageInfo.name info') (reason_of res) report)
      m2.
Proof.
  intros E1 E2. simpl. run_step. rewrite E1.
  destruct verbose; simpl in *; rewrite E2;
    destruct res as [url|[[] msg]]; reflexivity.
Qed.

(** *** [processImage], branch by branch *)

Lemma processImage_unsupported info (m : Machine World) :
  ImageInfo.isSupported info = false →
  processImage host info m
  = ((info, Failure (mkError ImageValidationError (unsupported_message info))),
     logged Warn (unsupported_message info) m).
Proof. intros E. unfold processImage. by rewrite E. Qed.

Lemma processImage_no_code info (m : Machine World) :
  ImageInfo.isSupported info = true →
  Js.truthy (ImageInfo.code info) = false →
  processImage host info m
  = ((info, Failure (mkError ImageBankMatchError (no_code_message info))),
     logged Warn (no_code_message info) m).
Proof. intros E1 E2. unfold processImage. by rewrite E1, E2. Qed.

Lemma processImage_invalid_size info (m : Machine World) :
  ImageInfo.isSupported info = true →
  Js.truthy (ImageInfo.code info) = true →
  ImageInfo.isValidSize info = false →
  processImage host info m
  = ((info, Failure (mkError ImageValidationError
                       (size_message "  Invalid size: " info))),
     logged Warn
       (size_message
          (if (ImageInfo.size info >? maxFileSize (self m))%Z
           then "  File too large: " else "  File too small: ") info) m).
Proof.
  intros E1 E2 E3. unfold processImage. rewrite E1, E2, E3. run.
  by destruct (ImageInfo.size info >? maxFileSize (self m))%Z.
Qed.

Lemma passes_checks_truthy info c :
  passes_checks info c → Js.truthy (ImageInfo.code info) = true.
Proof.
  intros (_ & -> & Hc & _). simpl. by rewrite bool_decide_eq_false_2.
Qed.

Lemma processImage_no_bank info c (m : Machine World) :
  passes_checks info c →
  list_find (bank_matches c) (banks (self m)) = None →
  processImage host info m
  = ((info, Failure (mkError ImageBankMatchError (no_bank_message info))),
     logged Warn (no_bank_message info) m).
Proof.
  intros Hp Hfind. pose proof (passes_checks_truthy _ _ Hp) as Ht.
  destruct Hp as (E1 & E2 & _ & E3).
  unfold processImage. rewrite E1, Ht, E3. run. rewrite E2. simpl.
  by rewrite Hfind.
Qed.

Lemma processImage_own_icon info c i bank (m : Machine World) :
  passes_checks info c →
  list_find (bank_matches c) (banks (self m)) = Some (i, bank) →
  has_own_icon bank = true →
  processImage host info m
  = ((ImageInfo.set_code (Some (Bank.nipBankCode bank)) info,
      Icon (Bank.icon bank)),
     logged Info
       (Glyph.information +:+ "  " +:+ Bank.name bank
        +:+ " already has an icon") m).
Proof.
  intros Hp Hfind Hicon. pose proof (passes_checks_truthy _ _ Hp) as Ht.
  destruct Hp as (E1 & E2 & _ & E3).
  unfold processImage. rewrite E1, Ht, E3. run. rewrite E2. simpl.
  by rewrite Hfind, Hicon.
Qed.

Lemma processImage_ci info c i bank (m : Machine World) :
  passes_checks info c →
  list_find (bank_matches c) (banks (self m)) = Some (i, bank) →
  has_own_icon bank = false →
  isCI (self m) = true →
  processImage host info m
  = ((ImageInfo.set_code (Some (Bank.nipBankCode bank)) info,
      Icon (Bank.icon bank)), m).
Proof.
  intros Hp Hfind Hicon Hci. pose proof (passes_checks_truthy _ _ Hp) as Ht.
  destruct Hp as (E1 & E2 & _ & E3).
  unfold processImage. rewrite E1, Ht, E3. run. rewrite E2. simpl.
  by rewrite Hfind, Hicon, Hci.
Qed.

Lemma processImage_upload info c i bank (m : Machine World) :
  passes_checks info c →
  list_find (bank_matches c) (banks (self m)) = Some (i, bank) →
  has_own_icon bank = false →
  isCI (self m) = false →
  processImage host info m = upload_branch host info i bank m.
Proof.
  intros Hp Hfind Hicon Hci. pose proof (passes_checks_truthy _ _ Hp) as Ht.
  destruct Hp as (E1 & E2 & _ & E3).
  unfold processImage, upload_branch. rewrite E1, Ht, E3. run. rewrite E2.
  simpl. rewrite Hfind, Hicon, Hci.
  by destruct (uploadToR2 _ _ _) as [[url|e] m1].
Qed.

Lemma uploadToR2_self info (m : Machine World) :
  self (uploadToR2 host info m).2 = self m.
Proof.
  unfold uploadToR2. run.
  destruct (s3Client (self m)), (r2Config (self m)); try done.
  destruct (fs_readFile host _ _) as [[buffer|e] w]; simpl; [|done].
  by destruct (s3_send host _ _ _) as [[[]|e] w'].
Qed.

Lemma uploadToR2_unconfigured info (m : Machine World) :
  s3Client (self m) = None ∨ r2Config (self m) = None →
  uploadToR2 host info m
  = (inr (mkError Error "R2 client not configured"),
     logged Err "R2 client not configured" m).
Proof.
  unfold uploadToR2. run.
  intros [E|E]; rewrite E; [|destruct (s3Client (self m))]; done.
Qed.

Lemma list_find_first {A} (P : A → Prop) `{∀ x, Decision (P x)}
    (l : list A) i x :
  l !! i = Some x → P x → (∀ j y, l !! j = Some y → j < i → ¬ P y) →
  list_find P l = Some (i, x).
Proof. intros. by apply list_find_Some. Qed.

Lemma list_find_absent {A} (P : A → Prop) `{∀ x, Decision (P x)}
    (l : list A) :
  (∀ x, x ∈ l → ¬ P x) → list_find P l = None.
Proof. intros Hl. apply list_find_None, Forall_forall. exact Hl. Qed.

(** *** The report is a partition of the descriptors *)

Lemma names_in_cons b info b' tagged :
  names_in b ((info, b') :: tagged)
  = if decide (b' = b) then ImageInfo.name info :: names_in b tagged
    else names_in b tagged.
Proof.
  unfold names_in. destruct (decide (b' = b)) as [E|E].
  - by rewrite filter_cons_True.
  - by rewrite filter_cons_False.
Qed.

Lemma processFiles_partition verbose imageFiles :
  ∀ results0 processed0 report0 (m : Machine World),
  let out := fst (processFiles host formatFileSize verbose imageFiles results0 processed0 report0 m) in
  ∃ (tagged : list (ImageInfo.t * ReportBucket)) (skips : list SkipEntry),
    out.1.1 = results0 ++ (fst <$> tagged)
    ∧ skipped out.2 = skipped report0 ++ skips
    ∧ sk_name <$> skips = names_in Skipped tagged
    ∧ failed_upload out.2 = failed_upload report0 ++ names_in FailedUpload tagged
    ∧ completed out.2 = completed report0 ++ names_in Completed tagged
    ∧ out.1.2 = processed0 + length (names_in Completed tagged).
Proof.
  induction imageFiles as [|imagePath rest IH]; intros results0 processed0 report0 m.
  - exists [], []. rewrite processFiles_nil. simpl.
    rewrite !app_nil_r. repeat split; lia.
  - destruct (getImageInfo host formatFileSize imagePath m) as [[info|] m1] eqn:E1.
    + destruct (processImage host info
                  (snd ((if verbose then logImageInfo info else ret tt) m1)))
        as [[info' res] m2] eqn:E2.
      intros out. subst out.
      rewrite (processFiles_found _ _ _ _ _ _ _ _ _ _ _ _ E1 E2).
      edestruct IH as (tagged & skips & H1 & H2 & H3 & H4 & H5 & H6).
      rewrite H1, H2, H4, H5, H6. clear H1 H2 H4 H5 H6.
      exists ((info', bucket_of res) :: tagged).
      exists (match bucket_of res with
              | Skipped =>
                  {| sk_name := ImageInfo.name info';
                     sk_reason := reason_of res |} :: skips
              | _ => skips
              end).
      rewrite !names_in_cons.
      destruct res as [url|[[] msg]]; simpl;
        rewrite <- ?app_assoc; simpl;
        repeat split; first [done | lia | by f_equal].
    + intros out. subst out.
      rewrite (processFiles_missing _ _ _ _ _ _ _ _ E1). apply IH.
Qed.

Lemma scanEntries_other_buckets this directory entries :
  ∀ imageFiles report,
  let out := scanEntries this directory entries imageFiles report in
  failed_upload out.2 = failed_upload report
  ∧ completed out.2 = completed report.
Proof.
  induction entries as [|entry rest IH]; intros imageFiles report; [done|].
  simpl. destruct (d_isFile entry); [|apply IH].
  destruct (includes_format _ _); [apply IH|].
  edestruct IH as [H1 H2]. rewrite H1, H2. done.
Qed.

Lemma scan_report_other_buckets directory (m : Machine World) :
  failed_upload (scan_report host directory m) = []
  ∧ completed (scan_report host directory m) = [].
Proof.
  unfold scan_report, getAllImageFiles. run.
  destruct (fs_readdir host directory (world m)) as [[entries|e] w]; simpl.
  - apply (scanEntries_other_buckets _ _ _ []
             {| skipped := []; failed_upload := []; completed := [] |}).
  - done.
Qed.

(** C2.  In a run of [processDirectory], every descriptor in [results]
    is filed under exactly one of the three buckets: there is a tagging of
    the descriptors with one bucket each such that the names added to
    [skipped] after the directory scan, and the whole of [failed_upload]
    and of [completed], are the names of the descriptors tagged with that
    bucket, in encounter order; [processed] counts the completed ones. *)
Theorem processDirectory_partition directory verbose (m : Machine World) :
  let r := fst (processDirectory host formatFileSize directory verbose m) in
  let report := imageProcessReport r in
  ∃ (tagged : list (ImageInfo.t * ReportBucket)) (skips : list SkipEntry),
    fst <$> tagged = results r
    ∧ skipped report = skipped (scan_report host directory m) ++ skips
    ∧ sk_name <$> skips = names_in Skipped tagged
    ∧ failed_upload report = names_in FailedUpload tagged
    ∧ completed report = names_in Completed tagged
    ∧ processed r = length (completed report).
Proof.
  pose proof (scan_report_other_buckets directory m) as [Hf Hc].
  revert Hf Hc. unfold scan_report, processDirectory. run.
  destruct (getAllImageFiles _ _ _ _) as [[imageFiles scan] m2].
  simpl. intros Hf Hc.
  destruct (bool_decide (length imageFiles = 0)).
  - exists [], []. simpl. rewrite app_nil_r, Hf, Hc. done.
  - pose proof (processFiles_partition verbose imageFiles [] 0 scan
                  (logged Log
                     (Glyph.folder +:+ " Found " +:+ pretty (length imageFiles)
                      +:+ " supported image files") m2)) as H.
    cbv zeta in H. unfold logged, write_console in H. simpl in H.
    destruct (processFiles _ _ _ _ _ _) as [[[results processed] report] m3].
    simpl in *. destruct H as (tagged & skips & H1 & H2 & H3 & H4 & H5 & H6).
    exists tagged, skips. rewrite Hf in H4. rewrite Hc in H5.
    simpl in *. subst. repeat split; try done. by rewrite H5.
Qed.
End Properties.

(* ------------------------------------------------------------------ *)
(** ** [extractCode] *)

(** C1.  [extractCode] returns the file name without its extension whatever
    that name is: ["123"] for ["123.png"], but ["logo-a"], not [null], for
    ["logo-a.png"]; the [catch] that returns [null] guards [parseInt],
    which never throws. *)
Theorem extractCode_keeps_non_numeric_name :
  extractCode "123.png" = Some "123"
  ∧ extractCode "logo-a.png" = Some "logo-a"
  ∧ ∀ imagePath, extractCode imagePath ≠ None.
Proof.
  repeat split; try reflexivity.
  intros imagePath. by rewrite extractCode_strip.
Qed.

(* ------------------------------------------------------------------ *)
(** ** The rules of [processImage] *)

Section Rules.
Context {World : Type} (host : Host World) (formatFileSize : Z → string).


(** C3.  [processImage] applies its rules in the order format, code,
    size, registry match, and the first rule that fails gives the result:
    an unsupported format gives an [ImageValidationError]; otherwise a
    null (or empty) code gives an [ImageBankMatchError] "No code found";
    otherwise an invalid size gives an [ImageValidationError] "Invalid
    size"; otherwise, when no record has the code as its [code] or
    [nipBankCode], an [ImageBankMatchError] "No bank found"; and when
    records match, the first of them in store order is the one used: the
    descriptor takes its [nipBankCode], and the result is its icon, or the
    uploaded URL written to that record, or an upload failure. *)
Theorem processImage_rule_order info (m : Machine World) :
  let out := processImage host info m in
  (ImageInfo.isSupported info = false →
     out.1.2 = Failure (mkError ImageValidationError (unsupported_message info)))
  ∧ (ImageInfo.isSupported info = true →
     Js.truthy (ImageInfo.code info) = false →
     out.1.2 = Failure (mkError ImageBankMatchError (no_code_message info)))
  ∧ (ImageInfo.isSupported info = true →
     Js.truthy (ImageInfo.code info) = true →
     ImageInfo.isValidSize info = false →
     out.1.2 = Failure (mkError ImageValidationError
                          (size_message "  Invalid size: " info)))
  ∧ (∀ c, passes_checks info c →
     (∀ bank, bank ∈ banks (self m) → ¬ bank_matches c bank) →
     out.1.2 = Failure (mkError ImageBankMatchError (no_bank_message info)))
  ∧ (∀ c i bank, passes_checks info c →
     banks (self m) !! i = Some bank →
     bank_matches c bank →
     (∀ j other, banks (self m) !! j = Some other → j < i →
                 ¬ bank_matches c other) →
     ImageInfo.code out.1.1 = Some (Bank.nipBankCode bank)
     ∧ ((out.1.2 = Icon (Bank.icon bank) ∧ self out.2 = self m)
        ∨ (∃ url, out.1.2 = Icon (Some url)
                  ∧ banks (self out.2)
                    = alter (Bank.set_icon (Some url)) i (banks (self m)))
        ∨ (∃ msg, out.1.2 = Failure (mkError FailedUploadError msg)
                  ∧ self out.2 = self m))).
Proof.
  intros out. subst out. split; [|split; [|split; [|split]]].
  - intros E. by rewrite processImage_unsupported.
  - intros E1 E2. by rewrite processImage_no_code.
  - intros E1 E2 E3. by rewrite processImage_invalid_size.
  - intros c Hp Hnone.
    rewrite (processImage_no_bank host info c); [done..|].
    by apply list_find_absent.
  - intros c i bank Hp Hi Hbank Hfirst.
    pose proof (list_find_first (bank_matches c) _ _ _ Hi Hbank Hfirst)
      as Hfind.
    destruct (has_own_icon bank) eqn:Hicon.
    { rewrite (processImage_own_icon host info c i bank) by done.
      split; [done | by left]. }
    destruct (isCI (self m)) eqn:Hci.
    { rewrite (processImage_ci host info c i bank) by done.
      split; [done | by left]. }
    rewrite (processImage_upload host info c i bank) by done.
    unfold upload_branch.
    pose proof (uploadToR2_self host
      (ImageInfo.set_code (Some (Bank.nipBankCode bank)) info) m) as Hself.
    destruct (uploadToR2 _ _ _) as [[url|e] m1]; simpl in *.
    + split; [done|]. right; left. exists url. by rewrite Hself.
    + split; [done|]. right; right. by exists (message e).
Qed.

(** C6.  In CI mode, [processImage] on a descriptor that passes the
    format, code and size rules and matches a record returns the icon that
    record already holds; it makes no call to the file system or the object
    store and leaves the world and the processor, hence every field of
    every record, as they were. *)
Theorem processImage_ci_returns_existing_icon info c i bank
    (m : Machine World) :
  isCI (self m) = true →
  passes_checks info c →
  list_find (bank_matches c) (banks (self m)) = Some (i, bank) →
  let out := processImage host info m in
  out.1.2 = Icon (Bank.icon bank)
  ∧ calls out.2 = calls m
  ∧ world out.2 = world m
  ∧ self out.2 = self m.
Proof.
  intros Hci Hp Hfind out. subst out.
  destruct (has_own_icon bank) eqn:Hicon.
  - by rewrite (processImage_own_icon host info c i bank).
  - by rewrite (processImage_ci host info c i bank).
Qed.

Lemma uploadToR2_reads_file info client cfg (m : Machine World) :
  s3Client (self m) = Some client → r2Config (self m) = Some cfg →
  ∃ more,
    calls (uploadToR2 host info m).2
    = calls m ++ ReadFile (ImageInfo.path info) :: more.
Proof.
  intros E1 E2. unfold uploadToR2. run. rewrite E1, E2.
  destruct (fs_readFile host _ _) as [[buffer|e] w]; simpl.
  - destruct (s3_send host _ _ _) as [[[]|e] w']; simpl;
      rewrite <- app_assoc; by eexists.
  - by eexists.
Qed.

(** C5, as amended.  When the matched record holds a (non-empty) icon
    without the marker "default-image", [processImage] returns that icon,
    makes no call and changes neither the world nor the processor and its
    records.  When the icon carries the marker and the run is not a CI
    run, [processImage] goes on to the upload gateway: its outcome is that
    of [uploadToR2] on the descriptor, and with a configured gateway the
    next call it makes reads the image file for the upload. *)
Theorem processImage_icon_short_circuit info c i bank u (m : Machine World) :
  passes_checks info c →
  list_find (bank_matches c) (banks (self m)) = Some (i, bank) →
  Bank.icon bank = Some u →
  let out := processImage host info m in
  (u ≠ "" → Js.includes "default-image" u = false →
     out.1.2 = Icon (Some u)
     ∧ calls out.2 = calls m ∧ world out.2 = world m ∧ self out.2 = self m)
  ∧ (Js.includes "default-image" u = true → isCI (self m) = false →
     out = upload_branch host info i bank m
     ∧ (∀ client cfg,
          s3Client (self m) = Some client → r2Config (self m) = Some cfg →
          ∃ more,
            calls out.2 = calls m ++ ReadFile (ImageInfo.path info) :: more)).
Proof.
  intros Hp Hfind Hicon out. subst out. split.
  - intros Hu Hmark.
    rewrite (processImage_own_icon host info c i bank); [by rewrite Hicon|done..|].
    unfold has_own_icon. rewrite Hicon. simpl.
    by rewrite Hmark, bool_decide_eq_false_2.
  - intros Hmark Hci.
    assert (has_own_icon bank = false) as Hown.
    { unfold has_own_icon. rewrite Hicon. simpl. rewrite Hmark.
      by rewrite andb_false_r. }
    rewrite (processImage_upload host info c i bank) by done.
    split; [done|]. intros client cfg E1 E2. unfold upload_branch.
    pose proof (uploadToR2_reads_file
      (ImageInfo.set_code (Some (Bank.nipBankCode bank)) info)
      client cfg m E1 E2) as [more Hread].
    exists more. by destruct (uploadToR2 _ _ _) as [[url|e] m1].
Qed.

Lemma getImageInfo_self imagePath (m : Machine World) :
  self (getImageInfo host formatFileSize imagePath m).2 = self m.
Proof.
  unfold getImageInfo. run.
  by destruct (fs_stat host imagePath (world m)) as [[stats|e] w].
Qed.

(** C4.  The size bounds are inclusive.  For a file whose [stat]
    succeeds, the descriptor has [isValidSize] exactly when
    [minFileSize <= size <= maxFileSize].  So, the bounds being in order,
    a size of [maxFileSize] is valid; a size of [maxFileSize + 1] is
    invalid and the size rule warns "File too large"; a size of
    [minFileSize - 1] is invalid and the size rule warns "File too
    small". *)
Theorem size_bounds_inclusive imagePath stats w' (m : Machine World) :
  fs_stat host imagePath (world m) = (Resolved stats, w') →
  let this := self m in
  let bytes := st_size stats in
  ∃ info m1,
    getImageInfo host formatFileSize imagePath m = (Some info, m1)
    ∧ ImageInfo.size info = bytes
    ∧ (ImageInfo.isValidSize info = true
       ↔ (minFileSize this ≤ bytes ≤ maxFileSize this)%Z)
    ∧ ((minFileSize this ≤ maxFileSize this)%Z →
       bytes = maxFileSize this → ImageInfo.isValidSize info = true)
    ∧ (bytes = (maxFileSize this + 1)%Z →
       ImageInfo.isValidSize info = false
       ∧ size_rule_reports host "  File too large: " info this)
    ∧ ((minFileSize this ≤ maxFileSize this)%Z →
       bytes = (minFileSize this - 1)%Z →
       ImageInfo.isValidSize info = false
       ∧ size_rule_reports host "  File too small: " info this).
Proof.
  intros Hstat this bytes. unfold getImageInfo. run. rewrite Hstat.
  eexists _, _. split; [reflexivity|]. simpl.
  split; [reflexivity|].
  assert (∀ info : ImageInfo.t, ∀ kind,
    ImageInfo.isValidSize info = false →
    (if (ImageInfo.size info >? maxFileSize this)%Z
     then "  File too large: " else "  File too small: ") = kind →
    size_rule_reports host kind info this) as Hrule.
  { intros info kind Hinvalid <- m2 Hthis Hs Hc.
    rewrite processImage_invalid_size by done. by rewrite Hthis. }
  subst this bytes.
  split; [|split; [|split]].
  - rewrite andb_true_iff, !Z.leb_le. done.
  - intros Horder E. apply andb_true_iff. rewrite !Z.leb_le. lia.
  - intros E.
    assert ((minFileSize (self m) <=? st_size stats)%Z
            && (st_size stats <=? maxFileSize (self m))%Z = false) as Hinv.
    { apply andb_false_iff. right. apply Z.leb_gt. lia. }
    split; [done|]. apply Hrule; simpl; [done|].
    destruct (Z.gtb_spec (st_size stats) (maxFileSize (self m))); [done|lia].
  - intros Horder E.
    assert ((minFileSize (self m) <=? st_size stats)%Z
            && (st_size stats <=? maxFileSize (self m))%Z = false) as Hinv.
    { apply andb_false_iff. left. apply Z.leb_gt. lia. }
    split; [done|]. apply Hrule; simpl; [done|].
    destruct (Z.gtb_spec (st_size stats) (maxFileSize (self m))); [lia|done].
Qed.
End Rules.

(* ------------------------------------------------------------------ *)
(** ** [cleanup] *)

Section Cleanup.
Context {World : Type} (host : Host World).

Lemma deleteFiles_run dirPath completedImages :
  ∀ deletedCount failedCount (m : Machine World),
  let targets := (λ p, path_resolve host [dirPath; p]) <$> completedImages in
  let out := deleteFiles host dirPath completedImages deletedCount failedCount m in
  calls out.2 = calls m ++ (Unlink <$> targets)
  ∧ self out.2 = self m
  ∧ out.1.2 = failedCount + rejected_unlinks host targets (world m)
  ∧ ∃ lines, console out.2 = console m ++ lines.
Proof.
  induction completedImages as [|imagePath rest IH];
    intros deletedCount failedCount m.
  - simpl. rewrite app_nil_r. repeat split; [lia|].
    exists []. by rewrite app_nil_r.
  - simpl. run.
    destruct (fs_unlink host _ (world m)) as [[[]|e] w]; simpl;
      edestruct IH as (H1 & H2 & H3 & lines & H4);
      rewrite H1, H2, H3, H4; simpl; rewrite <- !app_assoc;
      (repeat split; [done || lia ..|]); by eexists.
Qed.

Lemma cleanup_run completedImages (m : Machine World) :
  let dirPath := path_resolve host ["./_data/images"] in
  let targets := (λ p, path_resolve host [dirPath; p]) <$> completedImages in
  let failures := rejected_unlinks host targets (world m) in
  let out := cleanup host completedImages m in
  calls out.2 = calls m ++ (Unlink <$> targets)
  ∧ self out.2 = self m
  ∧ out.1 =
      if bool_decide (0 < failures) then
        Some (mkError Error
                ("Failed to delete " +:+ pretty failures +:+ " out of "
                 +:+ pretty (length completedImages) +:+ " files"))
      else None.
Proof.
  intros dirPath targets failures out. subst out. unfold cleanup. run.
  destruct (bool_decide (length completedImages = 0)) eqn:Hlen.
  { apply bool_decide_eq_true, nil_length_inv in Hlen.
    subst failures targets. subst completedImages. simpl.
    by rewrite app_nil_r. }
  set (m1 := Build_Machine _ _ _ _ _).
  pose proof (deleteFiles_run dirPath completedImages 0 0 m1) as H.
  cbv zeta in H. fold dirPath targets in H.
  change (world m1) with (world m) in H. fold failures in H.
  change (calls m1) with (calls m) in H.
  change (self m1) with (self m) in H.
  destruct (deleteFiles _ _ _ _ _ _) as [[deletedCount failedCount] m2].
  cbn [fst snd] in H. destruct H as (H1 & H2 & H3 & _).
  rewrite Nat.add_0_l in H3. subst failedCount.
  by destruct (bool_decide (0 < failures)).
Qed.

(** C7.  [cleanup] writes nothing: whatever the completed list, the calls
    it makes contain no [writeFile] (they are the deletions only), while
    the console is told that the banks file was updated with all the
    records. *)
Theorem cleanup_never_writes completedImages (m : Machine World) :
  let out := cleanup host completedImages m in
  filter is_write (calls out.2) = filter is_write (calls m)
  ∧ (Log, Glyph.check +:+ " Updated " +:+ banksFilePath (self m) +:+ " with "
          +:+ pretty (length (banks (self m))) +:+ " banks")
    ∈ console out.2.
Proof.
  intros out. subst out. split.
  - destruct (cleanup_run completedImages m) as (-> & _ & _).
    rewrite filter_app.
    assert (∀ l, filter is_write (Unlink <$> l) = []) as ->
      by (induction l; done).
    by rewrite app_nil_r.
  - unfold cleanup. run. rewrite length_fmap.
    destruct (bool_decide (length completedImages = 0)); simpl.
    { set_solver. }
    set (m1 := Build_Machine _ _ _ _ _).
    pose proof (deleteFiles_run (path_resolve host ["./_data/images"])
                  completedImages 0 0 m1) as H.
    cbv zeta in H.
    destruct (deleteFiles _ _ _ _ _ _) as [[deletedCount failedCount] m2].
    destruct H as (_ & _ & _ & lines & H). subst m1. simpl in H.
    destruct (bool_decide (0 < failedCount)); simpl; rewrite H; set_solver.
Qed.

(** C8.  [cleanup] attempts the deletion of every completed file, in
    order, whether or not earlier deletions failed; it returns an error
    that gives the number of failed deletions out of the total exactly
    when at least one deletion failed; with no completed file it makes no
    call and returns no error. *)
Theorem cleanup_attempts_every_deletion completedImages (m : Machine World) :
  let dirPath := path_resolve host ["./_data/images"] in
  let targets := (λ p, path_resolve host [dirPath; p]) <$> completedImages in
  let failures := rejected_unlinks host targets (world m) in
  let out := cleanup host completedImages m in
  calls out.2 = calls m ++ (Unlink <$> targets)
  ∧ out.1 =
      (if bool_decide (0 < failures) then
         Some (mkError Error
                 ("Failed to delete " +:+ pretty failures +:+ " out of "
                  +:+ pretty (length completedImages) +:+ " files"))
       else None)
  ∧ (cleanup host [] m).1 = None
  ∧ calls (cleanup host [] m).2 = calls m.
Proof.
  intros dirPath targets failures out. subst out.
  destruct (cleanup_run completedImages m) as (H1 & _ & H2).
  destruct (cleanup_run [] m) as (H3 & _ & H4).
  simpl in H3, H4. rewrite app_nil_r in H3. done.
Qed.
End Cleanup.

(* ------------------------------------------------------------------ *)
(** ** From the directory scan to the report *)

Section Scan.
Context {World : Type} (host : Host World) (formatFileSize : Z → string).


Lemma logImageInfo_self (verbose : bool) info (m : Machine World) :
  self ((if verbose then logImageInfo info else ret ()) m).2 = self m.
Proof. by destruct verbose. Qed.

(** C9.  With no storage client or no storage configuration, [uploadToR2]
    fails at once with "R2 client not configured": it only writes that
    line to the console, so no file is read and nothing is sent.
    [processImage] turns the failure into a [FailedUploadError], and the
    loop of [processDirectory] files the name under [failed_upload] and
    goes on with the remaining files. *)
Theorem unconfigured_gateway_fails_upload (verbose : bool) imagePath rest
    results processed report info c i bank (m m1 : Machine World) :
  s3Client (self m) = None ∨ r2Config (self m) = None →
  isCI (self m) = false →
  getImageInfo host formatFileSize imagePath m = (Some info, m1) →
  passes_checks info c →
  list_find (bank_matches c) (banks (self m)) = Some (i, bank) →
  has_own_icon bank = false →
  let m2 := ((if verbose then logImageInfo info else ret ()) m1).2 in
  let info' := ImageInfo.set_code (Some (Bank.nipBankCode bank)) info in
  let line := "R2 client not configured" in
  uploadToR2 host info' m2 = (inr (mkError Error line), logged Err line m2)
  ∧ processImage host info m2
    = ((info', Failure (mkError FailedUploadError line)),
       logged Err line (logged Err line m2))
  ∧ processFiles host formatFileSize verbose (imagePath :: rest) results processed report m
    = processFiles host formatFileSize verbose rest (results ++ [info']) processed
        (push_failed_upload (ImageInfo.name info) report)
        (logged Err line (logged Err line m2)).
Proof.
  intros Hcfg Hci Hinfo Hp Hfind Hicon m2 info' line.
  assert (self m2 = self m) as Hself.
  { subst m2. rewrite logImageInfo_self.
    pose proof (getImageInfo_self host formatFileSize imagePath m) as H.
    by rewrite Hinfo in H. }
  assert (uploadToR2 host info' m2
          = (inr (mkError Error line), logged Err line m2)) as Hup.
  { apply uploadToR2_unconfigured. by rewrite Hself. }
  assert (processImage host info m2
          = ((info', Failure (mkError FailedUploadError line)),
             logged Err line (logged Err line m2))) as Himg.
  { rewrite (processImage_upload host info c i bank) by (by rewrite ?Hself).
    unfold upload_branch. fold info'. by rewrite Hup. }
  repeat split; [done..|].
  by rewrite (processFiles_found host formatFileSize _ _ _ _ _ _ _ _ _ _ _ _
                Hinfo Himg).
Qed.

(** *** Scanned files are supported *)

Lemma scanEntries_supported this directory entries :
  Forall (λ e, entry_name (d_name e)) entries →
  ∀ imageFiles report,
  Forall (supported_path this) imageFiles →
  Forall (supported_path this)
    (scanEntries this directory entries imageFiles report).1.
Proof.
  induction 1 as [|entry rest Hentry _ IH]; intros imageFiles report Hfiles;
    [done|].
  simpl. destruct (d_isFile entry); [|by apply IH].
  destruct (includes_format _ _) eqn:Hext; [|by apply IH].
  apply IH, Forall_app. split; [done|].
  apply Forall_singleton. unfold supported_path.
  by rewrite extname_join.
Qed.

Lemma getAllImageFiles_supported directory report (m : Machine World) :
  well_formed_listing host directory (world m) →
  Forall (supported_path (self m))
    (getAllImageFiles host directory report m).1.1.
Proof.
  unfold well_formed_listing, getAllImageFiles. run.
  destruct (fs_readdir host directory (world m)) as [[entries|e] w]; simpl.
  - intros Hentries. by apply scanEntries_supported.
  - done.
Qed.

Lemma getImageInfo_isSupported imagePath info (m m1 : Machine World) :
  getImageInfo host formatFileSize imagePath m = (Some info, m1) →
  supported_path (self m) imagePath →
  ImageInfo.isSupported info = true.
Proof.
  unfold getImageInfo. run.
  destruct (fs_stat host imagePath (world m)) as [[stats|e] w]; [|done].
  by intros [= <- _].
Qed.

Lemma processImage_keeps info (m : Machine World) :
  ImageInfo.isSupported (processImage host info m).1.1 = ImageInfo.isSupported info
  ∧ supportedFormats (self (processImage host info m).2)
    = supportedFormats (self m).
Proof.
  unfold processImage. run.
  destruct (ImageInfo.isSupported info) eqn:E1; [|done].
  destruct (Js.truthy (ImageInfo.code info)); [|done].
  destruct (ImageInfo.isValidSize info); simpl.
  2:{ by destruct (_ >? _)%Z. }
  destruct (list_find _ _) as [[i bank]|]; [|done].
  destruct (has_own_icon bank); [done|].
  destruct (isCI (self m)); [done|].
  pose proof (uploadToR2_self host
    (ImageInfo.set_code (Some (Bank.nipBankCode bank)) info) m) as Hself.
  destruct (uploadToR2 _ _ _) as [[url|e] m1]; simpl in *; by rewrite Hself.
Qed.

Lemma processFiles_supported verbose imageFiles :
  ∀ results0 processed report (m : Machine World),
  Forall (supported_path (self m)) imageFiles →
  Forall (λ info, ImageInfo.isSupported info = true) results0 →
  Forall (λ info, ImageInfo.isSupported info = true)
    (processFiles host formatFileSize verbose imageFiles results0 processed report m).1.1.1.
Proof.
  induction imageFiles as [|imagePath rest IH];
    intros results0 processed report m Hfiles Hres; [done|].
  apply Forall_cons in Hfiles as [Hpath Hrest].
  pose proof (getImageInfo_self host formatFileSize imagePath m) as Hself1.
  destruct (getImageInfo host formatFileSize imagePath m) as [[info|] m1] eqn:E1; simpl in Hself1.
  - destruct (processImage host info
                ((if verbose then logImageInfo info else ret ()) m1).2)
      as [[info' res] m2] eqn:E2.
    rewrite (processFiles_found host formatFileSize _ _ _ _ _ _ _ _ _ _ _ _
               E1 E2).
    pose proof (processImage_keeps info
      ((if verbose then logImageInfo info else ret ()) m1).2) as [Hk1 Hk2].
    rewrite E2 in Hk1, Hk2. rewrite logImageInfo_self, Hself1 in Hk2.
    simpl in Hk1, Hk2.
    apply IH.
    + unfold supported_path in *. by rewrite Hk2.
    + apply Forall_app. split; [done|]. apply Forall_singleton.
      rewrite Hk1. by apply (getImageInfo_isSupported _ _ _ _ E1).
  - rewrite (processFiles_missing host formatFileSize _ _ _ _ _ _ _ _ E1).
    apply IH; [|done]. unfold supported_path in *. by rewrite Hself1.
Qed.

Lemma unsupported_branch_unreachable info (m : Machine World) :
  ImageInfo.isSupported info = true →
  (processImage host info m).1.2
  ≠ Failure (mkError ImageValidationError (unsupported_message info)).
Proof.
  intros E1. unfold processImage. run. rewrite E1. simpl.
  destruct (Js.truthy (ImageInfo.code info)); [|done].
  destruct (ImageInfo.isValidSize info); simpl.
  2:{ destruct (_ >? _)%Z; simpl; intros [= H];
        apply (inj (String.app Glyph.warning)) in H; discriminate H. }
  destruct (list_find _ _) as [[i bank]|]; [|done].
  destruct (has_own_icon bank); [done|].
  destruct (isCI (self m)); [done|].
  by destruct (uploadToR2 _ _ _) as [[url|e] m1].
Qed.

(** C10.  When the directory listing holds entry names, every path that
    [getAllImageFiles] returns has its lower-cased extension in the
    allow-list; a descriptor that [getImageInfo] builds from such a path
    (under the same allow-list) has [isSupported = true], and
    [processImage] never answers it with the unsupported-format error; so
    every descriptor in the results of [processDirectory] is supported. *)
Theorem scanned_files_are_supported directory verbose (m : Machine World) :
  well_formed_listing host directory (world m) →
  (∀ report imagePath,
     imagePath ∈ (getAllImageFiles host directory report m).1.1 →
     supported_path (self m) imagePath
     ∧ ∀ info (m1 m2 m3 : Machine World),
         supportedFormats (self m1) = supportedFormats (self m) →
         getImageInfo host formatFileSize imagePath m1 = (Some info, m2) →
         ImageInfo.isSupported info = true
         ∧ (processImage host info m3).1.2
           ≠ Failure (mkError ImageValidationError (unsupported_message info)))
  ∧ Forall (λ info, ImageInfo.isSupported info = true)
      (results (processDirectory host formatFileSize directory verbose m).1).
Proof.
  intros Hlisting. split.
  - intros report imagePath Hin.
    pose proof (getAllImageFiles_supported directory report m Hlisting) as Hall.
    rewrite Forall_forall in Hall. specialize (Hall _ Hin).
    split; [done|]. intros info m1 m2 m3 Hfmt Hinfo.
    assert (ImageInfo.isSupported info = true) as Hs.
    { apply (getImageInfo_isSupported _ _ _ _ Hinfo).
      unfold supported_path in *. by rewrite Hfmt. }
    split; [done|]. by apply unsupported_branch_unreachable.
  - unfold processDirectory. run.
    set (m1 := Build_Machine _ _ _ _ _).
    pose proof (getAllImageFiles_supported directory
      {| skipped := []; failed_upload := []; completed := [] |} m1 Hlisting)
      as Hall.
    assert (self (getAllImageFiles host directory
              {| skipped := []; failed_upload := []; completed := [] |} m1).2
            = self m) as Hself.
    { unfold getAllImageFiles. run.
      by destruct (fs_readdir host directory (world m)) as [[entries|e] w]. }
    destruct (getAllImageFiles _ _ _ _) as [[imageFiles scan] m2].
    simpl in *. destruct (bool_decide (length imageFiles = 0)); [done|].
    set (m3 := Build_Machine _ _ _ _ _).
    pose proof (processFiles_supported verbose imageFiles [] 0 scan m3) as H.
    destruct (processFiles _ _ _ _ _ _ _ _)
      as [[[results processed] report] m4].
    simpl in *. apply H; [|done]. subst m3. simpl. by rewrite Hself.
Qed.
End Scan.

(* ------------------------------------------------------------------ *)
(** ** The statements at work on the concrete world *)

Ltac by_evaluation :=
  vm_compute; repeat split; first [reflexivity | discriminate | lia | done].

Lemma processImage_rule_order_witness :
  (processImage Demo.host Demo.ten_bmp Demo.live).1.2
  = Failure (mkError ImageValidationError (unsupported_message Demo.ten_bmp))
  ∧ (processImage Demo.host Demo.nameless Demo.live).1.2
    = Failure (mkError ImageBankMatchError (no_code_message Demo.nameless))
  ∧ (processImage Demo.host Demo.five_png Demo.live).1.2
    = Failure (mkError ImageValidationError
                 (size_message "  Invalid size: " Demo.five_png))
  ∧ (processImage Demo.host Demo.logo_a Demo.live).1.2
    = Failure (mkError ImageBankMatchError (no_bank_message Demo.logo_a))
  ∧ ImageInfo.code (processImage Demo.host Demo.ten_jpg Demo.live).1.1
    = Some "000010".
Proof.
  split; [|split; [|split; [|split]]].
  - apply (processImage_rule_order Demo.host Demo.ten_bmp Demo.live).
    reflexivity.
  - apply (processImage_rule_order Demo.host Demo.nameless Demo.live);
      reflexivity.
  - apply (processImage_rule_order Demo.host Demo.five_png Demo.live);
      reflexivity.
  - apply (proj1 (proj2 (proj2 (proj2
      (processImage_rule_order Demo.host Demo.logo_a Demo.live))))
      "logo-a").
    + by_evaluation.
    + apply Forall_forall. apply (bool_decide_unpack _). by vm_compute.
  - apply (proj2 (proj2 (proj2 (proj2
      (processImage_rule_order Demo.host Demo.ten_jpg Demo.live))))
      "10" 0 Demo.ten_bank).
    + by_evaluation.
    + reflexivity.
    + left. reflexivity.
    + intros j other _ Hj. lia.
Defined.

Lemma size_bounds_inclusive_witness :
  (∃ info m1,
     getImageInfo Demo.host Demo.formatFileSize "_data/images/11.png" Demo.live
     = (Some info, m1)
     ∧ ImageInfo.size info = (5 * 1024 * 1024)%Z
     ∧ ImageInfo.isValidSize info = true)
  ∧ (∃ info m1,
     getImageInfo Demo.host Demo.formatFileSize "_data/images/12.png" Demo.live
     = (Some info, m1)
     ∧ ImageInfo.isValidSize info = false
     ∧ size_rule_reports Demo.host "  File too large: " info (self Demo.live))
  ∧ (∃ info m1,
     getImageInfo Demo.host Demo.formatFileSize "_data/images/13.png" Demo.live
     = (Some info, m1)
     ∧ ImageInfo.isValidSize info = false
     ∧ size_rule_reports Demo.host "  File too small: " info (self Demo.live)).
Proof.
  split; [|split].
  - destruct (size_bounds_inclusive Demo.host Demo.formatFileSize
                "_data/images/11.png"
                {| st_size := 5 * 1024 * 1024; birthtime := 0; mtime := 0 |}
                Demo.images Demo.live)
      as (info & m1 & H1 & H2 & _ & H3 & _); [reflexivity|].
    exists info, m1. repeat split; [done..|].
    apply H3; by_evaluation.
  - destruct (size_bounds_inclusive Demo.host Demo.formatFileSize
                "_data/images/12.png"
                {| st_size := 5 * 1024 * 1024 + 1; birthtime := 0; mtime := 0 |}
                Demo.images Demo.live)
      as (info & m1 & H1 & _ & _ & _ & H3 & _); [reflexivity|].
    exists info, m1. split; [done|]. apply H3. reflexivity.
  - destruct (size_bounds_inclusive Demo.host Demo.formatFileSize
                "_data/images/13.png"
                {| st_size := 1023; birthtime := 0; mtime := 0 |}
                Demo.images Demo.live)
      as (info & m1 & H1 & _ & _ & _ & _ & H3); [reflexivity|].
    exists info, m1. split; [done|]. apply H3; by_evaluation.
Defined.

Lemma processImage_icon_short_circuit_witness :
  (processImage Demo.host Demo.seventy_seven Demo.live).1.2
  = Icon (Some "https://cdn/logo/77")
  ∧ calls (processImage Demo.host Demo.seventy_seven Demo.live).2 = []
  ∧ processImage Demo.host Demo.seventy_eight Demo.live
    = upload_branch Demo.host Demo.seventy_eight 2 Demo.bank_78 Demo.live
  ∧ ∃ more,
      calls (processImage Demo.host Demo.seventy_eight Demo.live).2
      = ReadFile "_data/images/78.png" :: more.
Proof.
  destruct (processImage_icon_short_circuit Demo.host Demo.seventy_seven "77" 1
              Demo.bank_77 "https://cdn/logo/77" Demo.live)
    as [(H1 & H2 & _) _]; [by_evaluation | reflexivity | reflexivity | | |].
  { discriminate. }
  { reflexivity. }
  destruct (processImage_icon_short_circuit Demo.host Demo.seventy_eight "78" 2
              Demo.bank_78 "https://cdn/logo/default-image" Demo.live)
    as [_ (H3 & H4)]; [by_evaluation | reflexivity | reflexivity | | |].
  { reflexivity. }
  { reflexivity. }
  repeat split; [done..|].
  destruct (H4 _ _ eq_refl eq_refl) as [more Hmore].
  exists more. exact Hmore.
Defined.

(** In a CI run the record with the placeholder icon is answered with the
    placeholder, and the upload gateway is not called. *)
Lemma placeholder_in_ci_run_is_not_uploaded : ¬ placeholder_always_uploads.
Proof.
  intros H.
  assert (processImage Demo.host Demo.seventy_eight Demo.ci
          = upload_branch Demo.host Demo.seventy_eight 2 Demo.bank_78 Demo.ci)
    as E.
  { apply (H Demo.World Demo.host Demo.seventy_eight "78" 2 Demo.bank_78
             "https://cdn/logo/default-image" Demo.ci);
      [by_evaluation | reflexivity..]. }
  apply (f_equal (λ out, calls out.2)) in E.
  vm_compute in E. discriminate E.
Qed.

Lemma processImage_ci_returns_existing_icon_witness :
  (processImage Demo.host Demo.seventy_eight Demo.ci).1.2
  = Icon (Some "https://cdn/logo/default-image")
  ∧ calls (processImage Demo.host Demo.seventy_eight Demo.ci).2 = []
  ∧ banks (self (processImage Demo.host Demo.seventy_eight Demo.ci).2)
    = Demo.registry.
Proof.
  destruct (processImage_ci_returns_existing_icon Demo.host Demo.seventy_eight
              "78" 2 Demo.bank_78 Demo.ci)
    as (H1 & H2 & _ & H3); [reflexivity | by_evaluation | reflexivity |].
  split; [exact H1 | split; [exact H2 | by rewrite H3]].
Defined.

Lemma unconfigured_gateway_fails_upload_witness :
  let line := "R2 client not configured" in
  let m1 :=
    (getImageInfo Demo.host Demo.formatFileSize "_data/images/10.jpg"
       Demo.unconfigured).2 in
  uploadToR2 Demo.host (ImageInfo.set_code (Some "000010") Demo.ten_jpg) m1
  = (inr (mkError Error line), logged Err line m1)
  ∧ processFiles Demo.host Demo.formatFileSize false
      ["_data/images/10.jpg"; "_data/images/77.png"] [] 0 Demo.no_report
      Demo.unconfigured
    = processFiles Demo.host Demo.formatFileSize false
        ["_data/images/77.png"]
        [ImageInfo.set_code (Some "000010") Demo.ten_jpg] 0
        (push_failed_upload "10.jpg" Demo.no_report)
        (logged Err line (logged Err line m1)).
Proof.
  intros line m1.
  destruct (unconfigured_gateway_fails_upload Demo.host Demo.formatFileSize
              false "_data/images/10.jpg" ["_data/images/77.png"] [] 0
              Demo.no_report Demo.ten_jpg "10" 0 Demo.ten_bank
              Demo.unconfigured m1)
    as (H1 & _ & H2);
    [left; reflexivity | reflexivity | reflexivity | by_evaluation
    | reflexivity | reflexivity |].
  split; [exact H1 | exact H2].
Defined.

Lemma scanned_files_are_supported_witness :
  well_formed_listing Demo.host "./_data/images" (world Demo.live)
  ∧ Forall (λ info, ImageInfo.isSupported info = true)
      (results (processDirectory Demo.host Demo.formatFileSize
                  "./_data/images" false Demo.live).1).
Proof.
  assert (well_formed_listing Demo.host "./_data/images" (world Demo.live))
    as Hlisting.
  { change (Forall (λ e, entry_name (d_name e)) (Demo.entries Demo.images)).
    apply (bool_decide_unpack _). by vm_compute. }
  split; [exact Hlisting|].
  apply (scanned_files_are_supported Demo.host Demo.formatFileSize
           "./_data/images" false Demo.live Hlisting).
Defined.

(** A run without storage configuration over the image directory: the two
    files that reach the upload step are filed under [failed_upload], the
    others are skipped or completed, and every file is visited. *)
Example directory_run_without_storage :
  imageProcessReport
    (processDirectory Demo.host Demo.formatFileSize "./_data/images" false
       Demo.unconfigured).1
  = {| skipped :=
         [ {| sk_name := "notes.txt";
              sk_reason := Glyph.warning +:+ "  Unsupported format: .txt" |};
           {| sk_name := "logo-a.png";
              sk_reason := Glyph.warning +:+ "  No bank found: logo-a.png" |};
           {| sk_name := "5.png";
              sk_reason := Glyph.warning +:+ "  Invalid size: 5.png (12 B)" |} ];
       failed_upload := ["10.jpg"; "78.png"];
       completed := ["77.png"] |}.
Proof. by vm_compute. Qed.

(** Two completed files, the second of which cannot be deleted: both
    deletions are attempted, one failure out of two is reported, and the
    banks file is not written. *)
Example cleanup_one_failure_of_two :
  (cleanup Demo.host ["10.jpg"; "20.png"] Demo.live).1
  = Some (mkError Error "Failed to delete 1 out of 2 files")
  ∧ calls (cleanup Demo.host ["10.jpg"; "20.png"] Demo.live).2
    = [Unlink "/repo/_data/images/10.jpg"; Unlink "/repo/_data/images/20.png"].
Proof. by vm_compute. Qed.

(* ------------------------------------------------------------------ *)
(** ** Further properties: file names and the directory scan *)

Lemma extension_tail_dot a b : extension_tail (a +:+ "." +:+ b) = false.
Proof.
  induction a as [|c a IH].
  - change ("" +:+ "." +:+ b) with (String "." b). by destruct b.
  - rewrite append_cons. simpl. rewrite IH.
    destruct (a +:+ "." +:+ b) eqn:E; [|by rewrite andb_false_r].
    apply append_empty in E. discriminate E.
Qed.

(** X1.  For a file name made of a stem, a dot and an extension that is
    not empty and holds neither a dot nor a slash, [extractCode] returns the
    stem, whatever the stem is (it may itself hold dots). *)
Theorem extractCode_returns_stem stem ext :
  extension_tail ext = true →
  extractCode (stem +:+ "." +:+ ext) = Some stem.
Proof.
  intros Hext. rewrite extractCode_strip. f_equal.
  induction stem as [|c stem IH].
  - change ("" +:+ "." +:+ ext) with (String "." ext). simpl.
    by rewrite Hext.
  - rewrite append_cons. simpl.
    rewrite extension_tail_dot, andb_false_r. by rewrite IH.
Qed.

Lemma extractCode_returns_stem_witness :
  extractCode ("ngn.000014" +:+ "." +:+ "png") = Some "ngn.000014".
Proof. apply extractCode_returns_stem. reflexivity. Defined.

Section ScanFacts.
Context {World : Type} (host : Host World) (formatFileSize : Z → string).

Lemma scanEntries_classifies this directory entries :
  ∀ imageFiles report,
  let out := scanEntries this directory entries imageFiles report in
  out.1
  = imageFiles
    ++ ((λ e, Path.join [directory; d_name e]) <$> filter (scanned this) entries)
  ∧ skipped out.2
    = skipped report ++ (refusal <$> filter (refused this) entries).
Proof.
  induction entries as [|entry rest IH]; intros imageFiles report.
  - simpl. by rewrite !app_nil_r.
  - simpl. unfold scanned, refused in *.
    destruct (d_isFile entry) eqn:Hfile.
    + destruct (includes_format _ _) eqn:Hfmt.
      * rewrite filter_cons_True by done.
        rewrite filter_cons_False by (intros [_ ?]; congruence).
        edestruct IH as [H1 H2]. rewrite H1, H2.
        by rewrite <- app_assoc.
      * rewrite filter_cons_False by (intros [_ ?]; congruence).
        rewrite filter_cons_True by done.
        edestruct IH as [H1 H2]. rewrite H1, H2. simpl.
        by rewrite <- app_assoc.
    + rewrite !filter_cons_False by (intros [? _]; congruence).
      apply IH.
Qed.

Lemma getAllImageFiles_run directory report (m : Machine World) :
  let out := getAllImageFiles host directory report m in
  calls out.2 = calls m ++ [Readdir directory]
  ∧ failed_upload out.1.2 = failed_upload report
  ∧ completed out.1.2 = completed report
  ∧ match (fs_readdir host directory (world m)).1 with
    | Resolved entries =>
        out.1.1
        = (λ e, Path.join [directory; d_name e])
            <$> filter (scanned (self m)) entries
        ∧ skipped out.1.2
          = skipped report ++ (refusal <$> filter (refused (self m)) entries)
    | Rejected _ => out.1 = ([], report)
    end.
Proof.
  unfold getAllImageFiles. run.
  destruct (fs_readdir host directory (world m)) as [[entries|e] w]; simpl.
  - destruct (scanEntries_other_buckets (self m) directory entries []
                report) as [H1 H2].
    destruct (scanEntries_classifies (self m) directory entries [] report)
      as [H3 H4].
    done.
  - done.
Qed.

(** X2.  [getAllImageFiles] sorts the regular files of the listing in two:
    those with an allowed extension are returned, joined to the directory,
    in listing order; each of the others adds one entry to [skipped] with
    its name and the reason "Unsupported format" and its extension;
    directories add nothing.  When the listing fails, no file is returned
    and the report is left as it was.  In both cases [failed_upload] and
    [completed] are untouched and the only call is the [readdir]. *)
Theorem getAllImageFiles_classifies directory report (m : Machine World) :
  let out := getAllImageFiles host directory report m in
  calls out.2 = calls m ++ [Readdir directory]
  ∧ failed_upload out.1.2 = failed_upload report
  ∧ completed out.1.2 = completed report
  ∧ match (fs_readdir host directory (world m)).1 with
    | Resolved entries =>
        out.1.1
        = (λ e, Path.join [directory; d_name e])
            <$> filter (scanned (self m)) entries
        ∧ skipped out.1.2
          = skipped report ++ (refusal <$> filter (refused (self m)) entries)
    | Rejected _ => out.1 = ([], report)
    end.
Proof.
  intros out. subst out.
  destruct (getAllImageFiles_run directory report m) as (H1 & H2 & H3 & H4).
  split; [exact H1|]. split; [exact H2|]. split; [exact H3 | exact H4].
Qed.
End ScanFacts.

(* ------------------------------------------------------------------ *)
(** ** Further properties: the upload step *)

Section UploadFacts.
Context {World : Type} (host : Host World).

Lemma uploadToR2_read_rejected info client cfg e w1 (m : Machine World) :
  s3Client (self m) = Some client → r2Config (self m) = Some cfg →
  fs_readFile host (ImageInfo.path info) (world m) = (Rejected e, w1) →
  uploadToR2 host info m
  = (inr (mkError Error
            ("Failed to upload image to R2: " +:+ Js.show e "Unknown error")),
     {| self := self m; world := w1; console := console m;
        calls := calls m ++ [ReadFile (ImageInfo.path info)] |}).
Proof.
  intros E1 E2 E3. unfold uploadToR2. run. by rewrite E1, E2, E3.
Qed.

Lemma uploadToR2_send_rejected info c client cfg buffer e w1 w2
    (m : Machine World) :
  s3Client (self m) = Some client → r2Config (self m) = Some cfg →
  ImageInfo.code info = Some c →
  fs_readFile host (ImageInfo.path info) (world m) = (Resolved buffer, w1) →
  s3_send host client (logo_command cfg info c buffer) w1 = (Rejected e, w2) →
  uploadToR2 host info m
  = (inr (mkError Error
            ("Failed to upload image to R2: " +:+ Js.show e "Unknown error")),
     {| self := self m; world := w2; console := console m;
        calls := calls m ++ [ReadFile (ImageInfo.path info);
                             Send client (logo_command cfg info c buffer)] |}).
Proof.
  intros E1 E2 E3 E4 E5. unfold uploadToR2. run. rewrite E1, E2, E3, E4.
  simpl. unfold logo_command in E5. rewrite E5. simpl.
  by rewrite <- app_assoc.
Qed.

Lemma uploadToR2_sent info c client cfg buffer w1 w2 (m : Machine World) :
  s3Client (self m) = Some client → r2Config (self m) = Some cfg →
  ImageInfo.code info = Some c →
  fs_readFile host (ImageInfo.path info) (world m) = (Resolved buffer, w1) →
  s3_send host client (logo_command cfg info c buffer) w1 = (Resolved (), w2) →
  uploadToR2 host info m
  = (inl (publicDomain cfg +:+ "/" +:+ "logo/" +:+ c),
     {| self := self m; world := w2;
        console :=
          console m
          ++ [(Log, Glyph.check +:+ " Uploaded: " +:+ c +:+ " " +:+ Glyph.arrow
                    +:+ " " +:+ publicDomain cfg +:+ "/" +:+ "logo/" +:+ c)];
        calls := calls m ++ [ReadFile (ImageInfo.path info);
                             Send client (logo_command cfg info c buffer)] |}).
Proof.
  intros E1 E2 E3 E4 E5. unfold uploadToR2. run. rewrite E1, E2, E3, E4.
  simpl. unfold logo_command in E5. rewrite E5. simpl.
  by rewrite <- app_assoc.
Qed.

(** X3.  An error that [processImage] returns is an [ImageValidationError],
    an [ImageBankMatchError] or a [FailedUploadError], never a plain
    [Error]: the last, catch-all branch of the loop of [processDirectory]
    is never taken. *)
Theorem processImage_error_classes info (m : Machine World) :
  match (processImage host info m).1.2 with
  | Icon _ => True
  | Failure e =>
      e_class e = ImageValidationError
      ∨ e_class e = ImageBankMatchError
      ∨ e_class e = FailedUploadError
  end.
Proof.
  unfold processImage. run.
  destruct (ImageInfo.isSupported info); simpl; [|by left].
  destruct (Js.truthy (ImageInfo.code info)); simpl; [|by right; left].
  destruct (ImageInfo.isValidSize info); simpl.
  2:{ destruct (_ >? _)%Z; by left. }
  destruct (list_find _ _) as [[i bank]|]; simpl; [|by right; left].
  destruct (has_own_icon bank); [done|].
  destruct (isCI (self m)); [done|].
  destruct (uploadToR2 _ _ _) as [[url|e] m1]; simpl; [done|by right; right].
Qed.

(** X4.  When the upload step is reached with a configured gateway, the
    image file is read and the send succeeds, then one object is sent,
    under the key [logo/] followed by the [nipBankCode] of the matched
    record and with the descriptor's MIME type; the result is the public
    domain followed by [/logo/] and that [nipBankCode]; this URL becomes the
    icon of the matched record, and every other record and every other
    field of the processor is left as it was. *)
Theorem processImage_upload_records_url info c i bank client cfg buffer w1 w2
    (m : Machine World) :
  passes_checks info c →
  list_find (bank_matches c) (banks (self m)) = Some (i, bank) →
  has_own_icon bank = false →
  isCI (self m) = false →
  s3Client (self m) = Some client →
  r2Config (self m) = Some cfg →
  fs_readFile host (ImageInfo.path info) (world m) = (Resolved buffer, w1) →
  let command := logo_command cfg info (Bank.nipBankCode bank) buffer in
  s3_send host client command w1 = (Resolved (), w2) →
  let url := publicDomain cfg +:+ "/" +:+ "logo/" +:+ Bank.nipBankCode bank in
  let out := processImage host info m in
  out.1.2 = Icon (Some url)
  ∧ calls out.2 = calls m ++ [ReadFile (ImageInfo.path info); Send client command]
  ∧ world out.2 = w2
  ∧ banks (self out.2) !! i = Some (Bank.set_icon (Some url) bank)
  ∧ (∀ j, j ≠ i → banks (self out.2) !! j = banks (self m) !! j)
  ∧ set_banks (banks (self m)) (self out.2) = self m.
Proof.
  intros Hp Hfind Hicon Hci E1 E2 E3 command E4 url out. subst out.
  rewrite (processImage_upload host info c i bank) by done.
  unfold upload_branch.
  rewrite (uploadToR2_sent _ (Bank.nipBankCode bank) client cfg buffer w1 w2)
    by done.
  apply list_find_Some in Hfind as (Hi & _ & _).
  unfold with_icon. run. repeat split.
  - by rewrite list_lookup_alter_eq, Hi.
  - intros j Hj. by rewrite list_lookup_alter_ne.
  - by destruct (self m).
Qed.

(** X5.  When the upload step is reached with a configured gateway and the
    image file cannot be read, or the send is rejected, [processImage]
    returns a [FailedUploadError] whose message is "Failed to upload image
    to R2: " followed by the message of the rejection ("Unknown error" when
    it has none), and the processor, hence every record, is left as it
    was; after a failed read nothing is sent. *)
Theorem processImage_upload_failure info c i bank client cfg
    (m : Machine World) :
  passes_checks info c →
  list_find (bank_matches c) (banks (self m)) = Some (i, bank) →
  has_own_icon bank = false →
  isCI (self m) = false →
  s3Client (self m) = Some client →
  r2Config (self m) = Some cfg →
  let out := processImage host info m in
  (∀ e w1,
     fs_readFile host (ImageInfo.path info) (world m) = (Rejected e, w1) →
     out.1.2 = Failure (upload_failure e)
     ∧ self out.2 = self m
     ∧ calls out.2 = calls m ++ [ReadFile (ImageInfo.path info)])
  ∧ (∀ buffer e w1 w2,
     fs_readFile host (ImageInfo.path info) (world m) = (Resolved buffer, w1) →
     s3_send host client
       (logo_command cfg info (Bank.nipBankCode bank) buffer) w1
     = (Rejected e, w2) →
     out.1.2 = Failure (upload_failure e) ∧ self out.2 = self m).
Proof.
  intros Hp Hfind Hicon Hci E1 E2 out. subst out.
  rewrite (processImage_upload host info c i bank) by done.
  unfold upload_branch. split.
  - intros e w1 E3.
    by rewrite (uploadToR2_read_rejected _ client cfg e w1).
  - intros buffer e w1 w2 E3 E4.
    by rewrite (uploadToR2_send_rejected _ (Bank.nipBankCode bank) client cfg
                  buffer e w1 w2).
Qed.
End UploadFacts.

(* ------------------------------------------------------------------ *)
(** ** Further properties: a whole run *)

Section RunFacts.
Context {World : Type} (host : Host World) (formatFileSize : Z → string).

Lemma icon_update_refl bank : icon_update bank bank.
Proof. by repeat split. Qed.

Lemma icon_update_trans a b c :
  icon_update a b → icon_update b c → icon_update a c.
Proof.
  intros (H1 & H2 & H3 & H4) (G1 & G2 & G3 & G4). repeat split.
  - by rewrite G1. - by rewrite G2. - by rewrite G3.
  - intros Ha. specialize (H4 Ha). subst b. by apply G4.
Qed.

Lemma registry_update_refl banks : Forall2 icon_update banks banks.
Proof. apply Forall_Forall2_diag, Forall_forall. intros. apply icon_update_refl. Qed.

Lemma registry_update_trans a b c :
  Forall2 icon_update a b → Forall2 icon_update b c → Forall2 icon_update a c.
Proof.
  intros Hab. revert c. induction Hab; intros c' Hbc; inversion Hbc; subst;
    constructor; eauto using icon_update_trans.
Qed.

Lemma registry_update_alter banks i bank url :
  banks !! i = Some bank → has_own_icon bank = false →
  Forall2 icon_update banks (alter (Bank.set_icon (Some url)) i banks).
Proof.
  revert i. induction banks as [|b banks IH]; intros [|i] Hi Hicon;
    simplify_eq/=.
  - constructor; [|apply registry_update_refl].
    repeat split; try done. intros Hown. congruence.
  - constructor; [apply icon_update_refl | by eapply IH].
Qed.

Lemma processImage_registry info (m : Machine World) :
  Forall2 icon_update (banks (self m))
    (banks (self (processImage host info m).2))
  ∧ set_banks (banks (self m)) (self (processImage host info m).2) = self m.
Proof.
  assert (set_banks (banks (self m)) (self m) = self m) as Hsame
    by (by destruct (self m)).
  unfold processImage. run.
  destruct (ImageInfo.isSupported info); simpl;
    [|split; [apply registry_update_refl | done]].
  destruct (Js.truthy (ImageInfo.code info)); simpl;
    [|split; [apply registry_update_refl | done]].
  destruct (ImageInfo.isValidSize info); simpl.
  2:{ destruct (_ >? _)%Z; (split; [apply registry_update_refl | done]). }
  destruct (list_find _ _) as [[i bank]|] eqn:Hfind; simpl;
    [|split; [apply registry_update_refl | done]].
  destruct (has_own_icon bank) eqn:Hicon;
    [split; [apply registry_update_refl | done]|].
  destruct (isCI (self m)); [split; [apply registry_update_refl | done]|].
  pose proof (uploadToR2_self host
    (ImageInfo.set_code (Some (Bank.nipBankCode bank)) info) m) as Hself.
  destruct (uploadToR2 _ _ _) as [[url|e] m1]; simpl in *; rewrite Hself.
  - split; [|done]. apply list_find_Some in Hfind as (Hi & _ & _).
    by apply (registry_update_alter _ _ bank).
  - split; [apply registry_update_refl | done].
Qed.

Lemma getImageInfo_run imagePath (m : Machine World) :
  self (getImageInfo host formatFileSize imagePath m).2 = self m
  ∧ calls (getImageInfo host formatFileSize imagePath m).2
    = calls m ++ [Stat imagePath]
  ∧ ∀ info, (getImageInfo host formatFileSize imagePath m).1 = Some info →
      ImageInfo.path info = imagePath
      ∧ ImageInfo.name info = Path.basename imagePath.
Proof.
  unfold getImageInfo. run.
  destruct (fs_stat host imagePath (world m)) as [[stats|e] w]; simpl;
    (split; [done|split; [done|]]); intros ? [= <-]; done.
Qed.

Lemma logImageInfo_run (verbose : bool) info (m : Machine World) :
  self ((if verbose then logImageInfo info else ret ()) m).2 = self m
  ∧ calls ((if verbose then logImageInfo info else ret ()) m).2 = calls m.
Proof. by destruct verbose. Qed.

Lemma set_banks_trans p q r :
  set_banks (banks p) q = p → set_banks (banks q) r = q →
  set_banks (banks p) r = p.
Proof. destruct p, q, r. unfold set_banks. simpl. congruence. Qed.

Lemma processFiles_registry verbose imageFiles :
  ∀ results processed report (m : Machine World),
  let m' :=
    (processFiles host formatFileSize verbose imageFiles results processed
       report m).2 in
  Forall2 icon_update (banks (self m)) (banks (self m'))
  ∧ set_banks (banks (self m)) (self m') = self m.
Proof.
  induction imageFiles as [|imagePath rest IH];
    intros results processed report m.
  - simpl. split; [apply registry_update_refl | by destruct (self m)].
  - pose proof (getImageInfo_run imagePath m) as (Hself1 & _ & _).
    destruct (getImageInfo host formatFileSize imagePath m)
      as [[info|] m1] eqn:E1; simpl in Hself1.
    + destruct (processImage host info
                  ((if verbose then logImageInfo info else ret ()) m1).2)
        as [[info' res] m2] eqn:E2.
      intros m'. subst m'.
      rewrite (processFiles_found host formatFileSize _ _ _ _ _ _ _ _ _ _ _ _
                 E1 E2).
      pose proof (processImage_registry info
        ((if verbose then logImageInfo info else ret ()) m1).2) as [H1 H2].
      rewrite E2 in H1, H2.
      rewrite (proj1 (logImageInfo_run verbose info m1)), Hself1 in H1, H2.
      simpl in H1, H2.
      edestruct IH as [H3 H4]. split.
      * eapply registry_update_trans; [exact H1 | exact H3].
      * eapply set_banks_trans; [exact H2 | exact H4].
    + intros m'. subst m'.
      rewrite (processFiles_missing host formatFileSize _ _ _ _ _ _ _ _ E1).
      rewrite <- Hself1. apply IH.
Qed.

Lemma getAllImageFiles_self directory report (m : Machine World) :
  self (getAllImageFiles host directory report m).2 = self m.
Proof.
  unfold getAllImageFiles. run.
  by destruct (fs_readdir host directory (world m)) as [[entries|e] w].
Qed.

(** X6.  Over a whole run of [processDirectory] the registry keeps its
    records in number and order; every record keeps its name, [code] and
    [nipBankCode]; a record that had an icon of its own (not empty, not the
    placeholder) before the run is the same after it; and every other field
    of the processor is unchanged. *)
Theorem processDirectory_keeps_registry directory verbose (m : Machine World) :
  let m' := (processDirectory host formatFileSize directory verbose m).2 in
  Forall2 icon_update (banks (self m)) (banks (self m'))
  ∧ set_banks (banks (self m)) (self m') = self m.
Proof.
  unfold processDirectory. run.
  set (m1 := Build_Machine _ _ _ _ _).
  pose proof (getAllImageFiles_self directory
    {| skipped := []; failed_upload := []; completed := [] |} m1) as Hself.
  destruct (getAllImageFiles _ _ _ _) as [[imageFiles scan] m2].
  simpl in *. destruct (bool_decide (length imageFiles = 0)); simpl.
  { rewrite Hself. split; [apply registry_update_refl | by destruct (self m)]. }
  set (m3 := Build_Machine _ _ _ _ _).
  pose proof (processFiles_registry verbose imageFiles [] 0 scan m3) as H.
  destruct (processFiles _ _ _ _ _ _ _ _) as [[[results processed] report] m4].
  simpl in *. subst m3. simpl in H. by rewrite Hself in H.
Qed.

Lemma processImage_cannot_upload info (m : Machine World) :
  cannot_upload (self m) →
  self (processImage host info m).2 = self m
  ∧ calls (processImage host info m).2 = calls m
  ∧ world (processImage host info m).2 = world m.
Proof.
  intros Hno. unfold processImage. run.
  destruct (ImageInfo.isSupported info); simpl; [|done].
  destruct (Js.truthy (ImageInfo.code info)); simpl; [|done].
  destruct (ImageInfo.isValidSize info); simpl.
  2:{ by destruct (_ >? _)%Z. }
  destruct (list_find _ _) as [[i bank]|]; simpl; [|done].
  destruct (has_own_icon bank); [done|].
  destruct (isCI (self m)) eqn:Hci; [done|].
  destruct Hno as [Hno|Hno]; [congruence|].
  by rewrite uploadToR2_unconfigured.
Qed.

Lemma processFiles_cannot_upload verbose imageFiles :
  ∀ results processed report (m : Machine World),
  cannot_upload (self m) →
  let m' :=
    (processFiles host formatFileSize verbose imageFiles results processed
       report m).2 in
  self m' = self m ∧ calls m' = calls m ++ (Stat <$> imageFiles).
Proof.
  induction imageFiles as [|imagePath rest IH];
    intros results processed report m Hno.
  - simpl. by rewrite app_nil_r.
  - pose proof (getImageInfo_run imagePath m) as (Hself1 & Hcalls1 & _).
    destruct (getImageInfo host formatFileSize imagePath m)
      as [[info|] m1] eqn:E1; simpl in Hself1, Hcalls1.
    + destruct (processImage host info
                  ((if verbose then logImageInfo info else ret ()) m1).2)
        as [[info' res] m2] eqn:E2.
      intros m'. subst m'.
      rewrite (processFiles_found host formatFileSize _ _ _ _ _ _ _ _ _ _ _ _
                 E1 E2).
      pose proof (logImageInfo_run verbose info m1) as [Hself2 Hcalls2].
      pose proof (processImage_cannot_upload info
        ((if verbose then logImageInfo info else ret ()) m1).2) as H.
      rewrite E2, Hself2, Hself1, Hcalls2, Hcalls1 in H. simpl in H.
      destruct (H Hno) as (Hself3 & Hcalls3 & _).
      edestruct IH as [H3 H4]; [by rewrite Hself3|].
      rewrite H3, H4, Hself3, Hcalls3, <- app_assoc. done.
    + intros m'. subst m'.
      rewrite (processFiles_missing host formatFileSize _ _ _ _ _ _ _ _ E1).
      edestruct IH as [H3 H4]; [by rewrite Hself1|].
      rewrite H3, H4, Hself1, Hcalls1, <- app_assoc. done.
Qed.

Lemma processDirectory_probes_only directory verbose (m : Machine World) :
  cannot_upload (self m) →
  let out := processDirectory host formatFileSize directory verbose m in
  self out.2 = self m
  ∧ calls out.2
    = calls m ++ Readdir directory :: (Stat <$> scan_files host directory m).
Proof.
  intros Hno. unfold scan_files, processDirectory. run.
  set (m1 := Build_Machine _ _ _ _ _).
  pose proof (getAllImageFiles_self directory
    {| skipped := []; failed_upload := []; completed := [] |} m1) as Hself.
  pose proof (getAllImageFiles_run host directory
    {| skipped := []; failed_upload := []; completed := [] |} m1)
    as (Hcalls & _).
  destruct (getAllImageFiles _ _ _ _) as [[imageFiles scan] m2].
  simpl in *. destruct (bool_decide (length imageFiles = 0)) eqn:Hlen; simpl.
  { apply bool_decide_eq_true, nil_length_inv in Hlen. subst imageFiles.
    by rewrite Hself, Hcalls. }
  set (m3 := Build_Machine _ _ _ _ _).
  pose proof (processFiles_cannot_upload verbose imageFiles [] 0 scan m3) as H.
  destruct (processFiles _ _ _ _ _ _ _ _) as [[[results processed] report] m4].
  simpl in *. subst m3. simpl in H. rewrite Hself in H.
  destruct (H Hno) as [H1 H2].
  rewrite H1, H2, Hcalls, <- app_assoc. done.
Qed.

(** X7.  A run of [processDirectory] by a processor that is in CI mode, or
    has no storage client or no storage configuration, leaves the processor
    and its registry exactly as they were, and its only calls are the
    listing of the directory and one [stat] for each scanned file, in scan
    order: no image is read, nothing is sent, written or deleted. *)
Theorem processDirectory_without_upload directory verbose (m : Machine World) :
  cannot_upload (self m) →
  let out := processDirectory host formatFileSize directory verbose m in
  self out.2 = self m
  ∧ calls out.2
    = calls m ++ Readdir directory :: (Stat <$> scan_files host directory m).
Proof.
  intros Hno out. subst out.
  destruct (processDirectory_probes_only directory verbose m Hno) as [H1 H2].
  split; [exact H1 | exact H2].
Qed.

Lemma processImage_keeps_name info (m : Machine World) :
  ImageInfo.path (processImage host info m).1.1 = ImageInfo.path info
  ∧ ImageInfo.name (processImage host info m).1.1 = ImageInfo.name info.
Proof.
  unfold processImage. run.
  destruct (ImageInfo.isSupported info); simpl; [|done].
  destruct (Js.truthy (ImageInfo.code info)); simpl; [|done].
  destruct (ImageInfo.isValidSize info); simpl.
  2:{ by destruct (_ >? _)%Z. }
  destruct (list_find _ _) as [[i bank]|]; simpl; [|done].
  destruct (has_own_icon bank); [done|].
  destruct (isCI (self m)); [done|].
  by destruct (uploadToR2 _ _ _) as [[url|e] m1].
Qed.

Lemma processFiles_results verbose imageFiles :
  ∀ results0 processed report (m : Machine World),
  let out :=
    processFiles host formatFileSize verbose imageFiles results0 processed
      report m in
  ∃ new,
    out.1.1.1 = results0 ++ new
    ∧ sublist (ImageInfo.path <$> new) imageFiles
    ∧ Forall (λ info, ImageInfo.name info = Path.basename (ImageInfo.path info))
        new.
Proof.
  induction imageFiles as [|imagePath rest IH];
    intros results0 processed report m.
  - exists []. simpl. by rewrite app_nil_r.
  - pose proof (getImageInfo_run imagePath m) as (_ & _ & Hinfo).
    destruct (getImageInfo host formatFileSize imagePath m)
      as [[info|] m1] eqn:E1; simpl in Hinfo.
    + destruct (processImage host info
                  ((if verbose then logImageInfo info else ret ()) m1).2)
        as [[info' res] m2] eqn:E2.
      intros out. subst out.
      rewrite (processFiles_found host formatFileSize _ _ _ _ _ _ _ _ _ _ _ _
                 E1 E2).
      pose proof (processImage_keeps_name info
        ((if verbose then logImageInfo info else ret ()) m1).2) as [Hp Hn].
      rewrite E2 in Hp, Hn. simpl in Hp, Hn.
      destruct (Hinfo info eq_refl) as [Hpath Hname].
      edestruct IH as (new & H1 & H2 & H3).
      exists (info' :: new). rewrite H1, <- app_assoc. split; [done|].
      split.
      * rewrite fmap_cons, Hp, Hpath. by apply sublist_skip.
      * constructor; [|done]. by rewrite Hn, Hp, Hname, Hpath.
    + intros out. subst out.
      rewrite (processFiles_missing host formatFileSize _ _ _ _ _ _ _ _ E1).
      edestruct IH as (new & H1 & H2 & H3).
      exists new. split; [done|]. split; [by apply sublist_cons | done].
Qed.

(** X8.  The descriptors in the results of [processDirectory] are those of
    scanned files, in scan order and at most one per file (a file whose
    [stat] fails has none); each carries the path of its file and, as its
    name, the last component of that path; [total] is the number of scanned
    files, whether or not they have a descriptor. *)
Theorem processDirectory_results directory verbose (m : Machine World) :
  let r := (processDirectory host formatFileSize directory verbose m).1 in
  sublist (ImageInfo.path <$> results r) (scan_files host directory m)
  ∧ Forall (λ info, ImageInfo.name info = Path.basename (ImageInfo.path info))
      (results r)
  ∧ total r = length (scan_files host directory m)
  ∧ length (results r) ≤ total r.
Proof.
  unfold scan_files, processDirectory. run.
  destruct (getAllImageFiles _ _ _ _) as [[imageFiles scan] m2].
  simpl. destruct (bool_decide (length imageFiles = 0)) eqn:Hlen; simpl.
  { apply bool_decide_eq_true, nil_length_inv in Hlen. by subst imageFiles. }
  set (m3 := Build_Machine _ _ _ _ _).
  pose proof (processFiles_results verbose imageFiles [] 0 scan m3)
    as (new & H1 & H2 & H3).
  destruct (processFiles _ _ _ _ _ _ _ _) as [[[results processed] report] m4].
  simpl in *. subst results. repeat split; try done.
  apply sublist_length in H2. by rewrite length_fmap in H2.
Qed.

Lemma processDirectory_idle directory verbose (m : Machine World) :
  nothing_to_scan host directory m →
  let out := processDirectory host formatFileSize directory verbose m in
  out.1 = {| processed := 0; results := []; total := 0;
             imageProcessReport := scan_report host directory m |}
  ∧ failed_upload (scan_report host directory m) = []
  ∧ completed (scan_report host directory m) = []
  ∧ calls out.2 = calls m ++ [Readdir directory]
  ∧ self out.2 = self m.
Proof.
  intros Hnothing out. subst out.
  pose proof (scan_report_other_buckets host directory m) as [Hf Hc].
  split; [|split; [done|split; [done|]]];
    revert Hnothing; unfold nothing_to_scan, scan_report, processDirectory;
    run;
    set (m1 := Build_Machine _ _ _ _ _);
    pose proof (getAllImageFiles_self directory
      {| skipped := []; failed_upload := []; completed := [] |} m1) as Hself;
    pose proof (getAllImageFiles_run host directory
      {| skipped := []; failed_upload := []; completed := [] |} m1)
      as (Hcalls & _ & _ & Hscan);
    change (world m1) with (world m) in Hscan;
    change (self m1) with (self m) in Hscan;
    destruct (fs_readdir host directory (world m)) as [r w]; simpl in *;
    destruct (getAllImageFiles _ _ _ _) as [[imageFiles scan] m2];
    simpl in *; intros Hnothing;
    (assert (imageFiles = []) as ->
       by (destruct r; [destruct Hscan as [-> _]; by rewrite Hnothing
                       | by injection Hscan]));
    simpl; by rewrite ?Hself, ?Hcalls.
Qed.

(** X9.  When the listing of the directory fails, or holds no regular
    file with an allowed extension, [processDirectory] returns no
    descriptor, counts of zero and a report whose only entries are the
    skips of the scan; its only call is the listing, no [stat] is made and
    the processor is unchanged. *)
Theorem processDirectory_nothing_to_scan directory verbose (m : Machine World) :
  nothing_to_scan host directory m →
  let out := processDirectory host formatFileSize directory verbose m in
  out.1 = {| processed := 0; results := []; total := 0;
             imageProcessReport := scan_report host directory m |}
  ∧ failed_upload (scan_report host directory m) = []
  ∧ completed (scan_report host directory m) = []
  ∧ calls out.2 = calls m ++ [Readdir directory]
  ∧ self out.2 = self m.
Proof.
  intros Hnothing out. subst out.
  destruct (processDirectory_idle directory verbose m Hnothing)
    as (H1 & H2 & H3 & H4 & H5).
  split; [exact H1|]. split; [exact H2|]. split; [exact H3|].
  split; [exact H4 | exact H5].
Qed.
End RunFacts.

(* ------------------------------------------------------------------ *)
(** ** Further properties: an uploaded icon is not uploaded again *)

Section Again.
Context {World : Type} (host : Host World).

Lemma uploadToR2_url info url (m : Machine World) :
  (uploadToR2 host info m).1 = inl url → url ≠ "".
Proof.
  unfold uploadToR2. run.
  destruct (s3Client (self m)), (r2Config (self m)); try done.
  destruct (fs_readFile host _ _) as [[buffer|e] w]; simpl; [|done].
  destruct (s3_send host _ _ _) as [[[]|e] w']; simpl; [|done].
  intros [= <-] E. apply append_empty in E. discriminate E.
Qed.

Lemma list_find_alter_icon c i bank url banks :
  list_find (bank_matches c) banks = Some (i, bank) →
  list_find (bank_matches c) (alter (Bank.set_icon (Some url)) i banks)
  = Some (i, Bank.set_icon (Some url) bank).
Proof.
  intros (Hi & Hbank & Hfirst)%list_find_Some. apply list_find_Some.
  split; [by rewrite list_lookup_alter_eq, Hi|]. split; [done|].
  intros j other Hj Hlt. rewrite list_lookup_alter_ne in Hj by lia.
  by eapply Hfirst.
Qed.

(** X10.  Once [processImage] has uploaded the image of a descriptor and
    returned the new URL, and that URL does not hold the placeholder marker,
    processing a descriptor with the same code again, from the state the
    first call left, returns the same URL without any call and without
    changing the processor: a record is uploaded at most once. *)
Theorem uploaded_icon_is_reused info c i bank url (m : Machine World) :
  passes_checks info c →
  list_find (bank_matches c) (banks (self m)) = Some (i, bank) →
  has_own_icon bank = false →
  isCI (self m) = false →
  (processImage host info m).1.2 = Icon (Some url) →
  Js.includes "default-image" url = false →
  let m1 := (processImage host info m).2 in
  let again := processImage host info m1 in
  again.1.2 = Icon (Some url)
  ∧ calls again.2 = calls m1
  ∧ world again.2 = world m1
  ∧ self again.2 = self m1.
Proof.
  intros Hp Hfind Hicon Hci Hres Hmark m1 again. subst again m1.
  pose proof (processImage_upload host info c i bank m Hp Hfind Hicon Hci)
    as Hrun.
  unfold upload_branch in Hrun.
  pose proof (λ u, uploadToR2_url
    (ImageInfo.set_code (Some (Bank.nipBankCode bank)) info) u m) as Hurl.
  pose proof (uploadToR2_self host
    (ImageInfo.set_code (Some (Bank.nipBankCode bank)) info) m) as Hself.
  destruct (uploadToR2 _ _ _) as [[url'|e] m1]; simpl in *;
    rewrite Hrun in Hres; [|done].
  injection Hres as ->. specialize (Hurl url eq_refl). rewrite Hrun. simpl.
  rewrite (processImage_own_icon host info c i
             (Bank.set_icon (Some url) bank)); [done|done| |].
  - unfold with_icon. run. rewrite Hself. by apply list_find_alter_icon.
  - unfold has_own_icon. simpl.
    by rewrite Hmark, bool_decide_eq_false_2.
Qed.
End Again.

(* ------------------------------------------------------------------ *)
(** ** Further properties: the summary report *)

Section ReportFacts.

Lemma count_false_cons {A} (f : A → bool) a l :
  length (filter (λ x, f x = false) (a :: l))
  = (if f a then 0 else 1) + length (filter (λ x, f x = false) l).
Proof.
  destruct (f a) eqn:E.
  - by rewrite filter_cons_False by congruence.
  - by rewrite filter_cons_True by done.
Qed.

Lemma report_fold results :
  ∀ init,
  let report := fold_left report_step results init in
  ReportData.total report = ReportData.total init
  ∧ ReportData.totalSize report
    = (ReportData.totalSize init + sizes results)%Z
  ∧ ReportData.unsupported report
    = ReportData.unsupported init
      + length (filter (λ img, ImageInfo.isSupported img = false) results)
  ∧ ReportData.invalidSize report
    = ReportData.invalidSize init
      + length (filter (λ img, ImageInfo.isValidSize img = false) results).
Proof.
  induction results as [|img rest IH]; intros init.
  - simpl. repeat split; lia.
  - simpl. edestruct IH as (H1 & H2 & H3 & H4).
    rewrite H1, H2, H3, H4, !count_false_cons. simpl.
    destruct (ImageInfo.isSupported img), (ImageInfo.isValidSize img);
      repeat split; lia.
Qed.

Lemma generateReport_counts_of results :
  ReportData.unsupported (generateReport results)
  = length (filter (λ img, ImageInfo.isSupported img = false) results)
  ∧ ReportData.invalidSize (generateReport results)
    = length (filter (λ img, ImageInfo.isValidSize img = false) results).
Proof.
  unfold generateReport. simpl.
  edestruct (report_fold results) as (_ & _ & H3 & H4).
  by rewrite H3, H4.
Qed.


Lemma largest_fold results :
  ∀ init,
  match ReportData.largestFile (fold_left report_step results init) with
  | None => results = [] ∧ ReportData.largestFile init = None
  | Some l =>
      (ReportData.largestFile init = Some l
       ∧ Forall (λ y, (ImageInfo.size y ≤ ImageInfo.size l)%Z) results)
      ∨ ∃ pre post,
          results = pre ++ l :: post
          ∧ Forall (λ y, (ImageInfo.size y < ImageInfo.size l)%Z) pre
          ∧ Forall (λ y, (ImageInfo.size y ≤ ImageInfo.size l)%Z) post
          ∧ match ReportData.largestFile init with
            | None => True
            | Some c => (ImageInfo.size c < ImageInfo.size l)%Z
            end
  end.
Proof.
  induction results as [|img rest IH] using rev_ind; intros init.
  - simpl. destruct (ReportData.largestFile init); [by left | done].
  - rewrite fold_left_app. simpl. specialize (IH init).
    destruct (ReportData.largestFile (fold_left report_step rest init))
      as [cur|].
    + destruct (Z.gtb_spec (ImageInfo.size img) (ImageInfo.size cur)).
      * right. exists rest, []. split; [done|].
        destruct IH as [[Hinit Hall]|(pre & post & -> & Hpre & Hpost & Hinit)].
        -- split; [|split; [done|by rewrite Hinit]].
           eapply Forall_impl; [exact Hall|]. simpl. lia.
        -- split; [|split; [done|]].
           ++ apply Forall_app. split; [|constructor].
              ** eapply Forall_impl; [exact Hpre|]. simpl. lia.
              ** lia.
              ** eapply Forall_impl; [exact Hpost|]. simpl. lia.
           ++ destruct (ReportData.largestFile init); [lia|done].
      * destruct IH as [[Hinit Hall]|(pre & post & -> & Hpre & Hpost & Hinit)].
        -- left. split; [done|]. apply Forall_app. split; [done|].
           by apply Forall_singleton.
        -- right. exists pre, (post ++ [img]).
           rewrite <- app_assoc. split; [done|]. split; [done|].
           split; [|done]. apply Forall_app. split; [done|].
           by apply Forall_singleton.
    + destruct IH as [-> Hinit]. right. exists [], [].
      split; [done|]. rewrite Hinit. done.
Qed.

Lemma smallest_fold results :
  ∀ init,
  match ReportData.smallestFile (fold_left report_step results init) with
  | None => results = [] ∧ ReportData.smallestFile init = None
  | Some s =>
      (ReportData.smallestFile init = Some s
       ∧ Forall (λ y, (ImageInfo.size s ≤ ImageInfo.size y)%Z) results)
      ∨ ∃ pre post,
          results = pre ++ s :: post
          ∧ Forall (λ y, (ImageInfo.size s < ImageInfo.size y)%Z) pre
          ∧ Forall (λ y, (ImageInfo.size s ≤ ImageInfo.size y)%Z) post
          ∧ match ReportData.smallestFile init with
            | None => True
            | Some c => (ImageInfo.size s < ImageInfo.size c)%Z
            end
  end.
Proof.
  induction results as [|img rest IH] using rev_ind; intros init.
  - simpl. destruct (ReportData.smallestFile init); [by left | done].
  - rewrite fold_left_app. simpl. specialize (IH init).
    destruct (ReportData.smallestFile (fold_left report_step rest init))
      as [cur|].
    + destruct (Z.ltb_spec (ImageInfo.size img) (ImageInfo.size cur)).
      * right. exists rest, []. split; [done|].
        destruct IH as [[Hinit Hall]|(pre & post & -> & Hpre & Hpost & Hinit)].
        -- split; [|split; [done|by rewrite Hinit]].
           eapply Forall_impl; [exact Hall|]. simpl. lia.
        -- split; [|split; [done|]].
           ++ apply Forall_app. split; [|constructor].
              ** eapply Forall_impl; [exact Hpre|]. simpl. lia.
              ** lia.
              ** eapply Forall_impl; [exact Hpost|]. simpl. lia.
           ++ destruct (ReportData.smallestFile init); [lia|done].
      * destruct IH as [[Hinit Hall]|(pre & post & -> & Hpre & Hpost & Hinit)].
        -- left. split; [done|]. apply Forall_app. split; [done|].
           by apply Forall_singleton.
        -- right. exists pre, (post ++ [img]).
           rewrite <- app_assoc. split; [done|]. split; [done|].
           split; [|done]. apply Forall_app. split; [done|].
           by apply Forall_singleton.
    + destruct IH as [-> Hinit]. right. exists [], [].
      split; [done|]. rewrite Hinit. done.
Qed.

(** X12.  The [largestFile] of the summary is absent exactly for an empty
    list; otherwise it is one of the descriptors, no descriptor is larger,
    and the descriptors before it are strictly smaller: among the largest,
    the first is kept.  The [smallestFile] is the first among the smallest
    in the same way. *)
Theorem generateReport_extremes results :
  let report := generateReport results in
  match ReportData.largestFile report with
  | None => results = []
  | Some largest =>
      ∃ pre post,
        results = pre ++ largest :: post
        ∧ Forall (λ y, (ImageInfo.size y < ImageInfo.size largest)%Z) pre
        ∧ Forall (λ y, (ImageInfo.size y ≤ ImageInfo.size largest)%Z) post
  end
  ∧ match ReportData.smallestFile report with
    | None => results = []
    | Some smallest =>
        ∃ pre post,
          results = pre ++ smallest :: post
          ∧ Forall (λ y, (ImageInfo.size smallest < ImageInfo.size y)%Z) pre
          ∧ Forall (λ y, (ImageInfo.size smallest ≤ ImageInfo.size y)%Z) post
    end.
Proof.
  unfold generateReport. simpl. split.
  - match goal with |- context [fold_left report_step results ?i] =>
      pose proof (largest_fold results i) as H end.
    destruct (ReportData.largestFile _) as [l|]; [|by destruct H].
    destruct H as [[? _]|(pre & post & ? & ? & ? & _)]; [done|].
    by exists pre, post.
  - match goal with |- context [fold_left report_step results ?i] =>
      pose proof (smallest_fold results i) as H end.
    destruct (ReportData.smallestFile _) as [l|]; [|by destruct H].
    destruct H as [[? _]|(pre & post & ? & ? & ? & _)]; [done|].
    by exists pre, post.
Qed.









(** X14.  [getBankByCode] returns the first record of the registry whose
    [code] is the argument (the [nipBankCode] is not looked at), and
    nothing exactly when no record has that [code]; in a registry whose
    codes are all different, looking up the [code] of a record gives that
    record back. *)
Theorem getBankByCode_finds banks code :
  match NgnBanksRegistry.getBankByCode banks code with
  | Some bank =>
      ∃ i, banks !! i = Some bank
           ∧ Bank.code bank = code
           ∧ ∀ j other, banks !! j = Some other → j < i →
                        Bank.code other ≠ code
  | None => ∀ bank, bank ∈ banks → Bank.code bank ≠ code
  end
  ∧ (NoDup (Bank.code <$> banks) →
     ∀ bank, bank ∈ banks →
       NgnBanksRegistry.getBankByCode banks (Bank.code bank) = Some bank).
Proof.
  unfold NgnBanksRegistry.getBankByCode. split.
  - destruct (list_find _ banks) as [[i bank]|] eqn:E; simpl.
    + apply list_find_Some in E as (Hi & Hcode & Hfirst). by exists i.
    + apply list_find_None in E. by rewrite Forall_forall in E.
  - intros Hdup bank [i Hi]%list_elem_of_lookup.
    rewrite (proj2 (list_find_Some _ banks i bank)); [done|].
    split; [done|]. split; [done|]. intros j other Hj Hlt Hcode.
    assert (j = i); [|lia].
    eapply (NoDup_lookup _ _ _ (Bank.code bank) Hdup);
      rewrite list_lookup_fmap; [by rewrite Hj, <- Hcode | by rewrite Hi].
Qed.
End ReportFacts.

(* ------------------------------------------------------------------ *)
(** ** Further properties: the report after a run, and the two scripts *)

Section ScriptFacts.
Context {World : Type} (host : Host World).
Context (formatFileSize : Z → string) (formatAverage : Q → string).
Context (inspect_skipped : list SkipEntry → string).
Context (inspect_names : list string → string).
Context (JSON_parse : string → outcome (list Bank.t)).

Lemma processDirectory_results_supported directory verbose
    (m : Machine World) :
  well_formed_listing host directory (world m) →
  Forall (λ info, ImageInfo.isSupported info = true)
    (results (processDirectory host formatFileSize directory verbose m).1).
Proof.
  intros Hlisting. unfold processDirectory. run.
  set (m1 := Build_Machine _ _ _ _ _).
  pose proof (getAllImageFiles_supported host directory
    {| skipped := []; failed_upload := []; completed := [] |} m1 Hlisting)
    as Hall.
  pose proof (getAllImageFiles_self host directory
    {| skipped := []; failed_upload := []; completed := [] |} m1) as Hself.
  destruct (getAllImageFiles _ _ _ _) as [[imageFiles scan] m2].
  simpl in *. destruct (bool_decide (length imageFiles = 0)); [done|].
  set (m3 := Build_Machine _ _ _ _ _).
  pose proof (processFiles_supported host formatFileSize verbose imageFiles
                [] 0 scan m3) as H.
  destruct (processFiles _ _ _ _ _ _ _ _) as [[[results processed] report] m4].
  simpl in *. apply H; [|done]. subst m3. simpl. by rewrite Hself.
Qed.

(** X15.  When the directory listing holds entry names, the summary that
    [generateReport] makes of the results of [processDirectory] counts no
    unsupported file: the scan has already turned those away, and the line
    "Unsupported files" of the printed report never appears. *)
Theorem run_report_counts_no_unsupported directory verbose (m : Machine World) :
  well_formed_listing host directory (world m) →
  ReportData.unsupported
    (generateReport
       (results (processDirectory host formatFileSize directory verbose m).1))
  = 0.
Proof.
  intros Hlisting.
  pose proof (processDirectory_results_supported directory verbose m Hlisting)
    as Hall.
  destruct (generateReport_counts_of
              (results (processDirectory host formatFileSize directory
                          verbose m).1)) as [-> _].
  induction Hall as [|info rest Hinfo _ IH]; [done|].
  by rewrite filter_cons_False by congruence.
Qed.

Lemma loadBanksData_run (m : Machine World) :
  let out := loadBanksData host JSON_parse m in
  calls out.2 = calls m ++ [ReadFile (banksFilePath (self m))]
  ∧ match fs_readFile host (banksFilePath (self m)) (world m) with
    | (Resolved content, w1) =>
        world out.2 = w1
        ∧ match JSON_parse content with
          | Resolved parsed =>
              out.1 = Resolved () ∧ self out.2 = set_banks parsed (self m)
          | Rejected e => out.1 = Rejected e ∧ self out.2 = self m
          end
    | (Rejected e, w1) =>
        world out.2 = w1 ∧ out.1 = Rejected e ∧ self out.2 = self m
    end.
Proof.
  unfold loadBanksData. run.
  destruct (fs_readFile host _ _) as [[content|e] w1]; simpl; [|done].
  by destruct (JSON_parse content) as [parsed|e].
Qed.

Lemma printByType_frame entries (m : Machine World) :
  self (printByType entries m).2 = self m
  ∧ world (printByType entries m).2 = world m
  ∧ calls (printByType entries m).2 = calls m.
Proof.
  revert m. induction entries as [|[type count] rest IH]; intros m; [done|].
  simpl. run.
  match goal with |- context [printByType rest ?m0] =>
    destruct (IH m0) as (H1 & H2 & H3) end.
  by rewrite H1, H2, H3.
Qed.

Lemma printReport_frame results report (m : Machine World) :
  let m' :=
    (printReport formatFileSize formatAverage inspect_skipped inspect_names
       results report m).2 in
  self m' = self m ∧ world m' = world m ∧ calls m' = calls m.
Proof.
  unfold printReport, when. run.
  destruct (ReportData.largestFile _), (ReportData.smallestFile _); simpl;
    match goal with |- context [printByType ?l ?m0] =>
      pose proof (printByType_frame l m0) as (H1 & H2 & H3);
      destruct (printByType l m0) as [[] m1] end;
    simpl in *;
    repeat match goal with |- context [bool_decide ?P] =>
      destruct (bool_decide P) end;
    simpl; by rewrite H1, H2, H3.
Qed.

(** The processor that [scripts/ci.ts] constructs. *)
Lemma ci_processor_cannot_upload options registry bs :
  o_r2Config options = None →
  cannot_upload (set_banks bs (new_ImageProcessor host options registry)).
Proof. intros E. right; left. simpl. by rewrite E. Qed.

(** X16.  Whatever the environment and the world, [scripts/ci.ts] reads the
    banks file and, after that, only lists the directory and takes the
    [stat] of files: it reads no image, sends nothing to the object store,
    writes and deletes nothing.  When the banks file loads, the registry
    is, at the end, the parsed file, unchanged. *)
Theorem ci_main_only_probes env (m : Machine World) :
  let out := ci_main host formatFileSize inspect_skipped JSON_parse env m in
  let banksFile := path_resolve host ["./_data/banks.json"] in
  (∃ probes,
     calls out.2 = calls m ++ ReadFile banksFile :: probes
     ∧ Forall (λ c, is_probe c = true) probes)
  ∧ ∀ content w1 parsed,
      fs_readFile host banksFile (world m) = (Resolved content, w1) →
      JSON_parse content = Resolved parsed →
      banks (self out.2) = parsed.
Proof.
  unfold ci_main. run.
  set (m0 := Build_Machine _ _ _ _ _).
  pose proof (loadBanksData_run m0) as [Hcalls Hload]. cbv zeta in Hload.
  change (banksFilePath (self m0)) with (path_resolve host ["./_data/banks.json"])
    in *.
  change (world m0) with (world m) in *. change (calls m0) with (calls m) in *.
  destruct (loadBanksData host JSON_parse m0) as [[[]|e] m1]; simpl in *.
  - assert (∃ bs, self m1 = set_banks bs (self m0)) as [bs Hself].
    { destruct (fs_readFile host _ _) as [[content|e] w1].
      - destruct Hload as [_ Hload].
        destruct (JSON_parse content); destruct Hload as [? ?]; [eauto|done].
      - by destruct Hload as (_ & ? & _). }
    set (directory := string_or (env !! "IMAGE_DIRECTORY") "./_data/images").
    pose proof (processDirectory_probes_only host formatFileSize directory
                  false m1) as [Hself2 Hcalls2].
    { rewrite Hself. by apply ci_processor_cannot_upload. }
    destruct (processDirectory _ _ _ _ _) as [r m2]. simpl in *.
    assert (calls m2
            = calls m ++ ReadFile (path_resolve host ["./_data/banks.json"])
                :: Readdir directory :: (Stat <$> scan_files host directory m1))
      as Hall by (by rewrite Hcalls2, Hcalls, <- app_assoc).
    assert (Forall (λ c, is_probe c = true)
              (Readdir directory :: (Stat <$> scan_files host directory m1)))
      as Hprobes.
    { constructor; [done|]. apply Forall_fmap, Forall_forall. done. }
    assert (∀ content w1 parsed,
              fs_readFile host (path_resolve host ["./_data/banks.json"])
                (world m) = (Resolved content, w1) →
              JSON_parse content = Resolved parsed →
              banks (self m2) = parsed) as Hbanks.
    { intros content w1 parsed E1 E2. rewrite E1, E2 in Hload.
      destruct Hload as (_ & _ & Hs). by rewrite Hself2, Hs. }
    repeat match goal with |- context [bool_decide ?P] =>
      destruct (bool_decide P) end; simpl; eauto.
  - split.
    + exists []. by rewrite Hcalls.
    + intros content w1 parsed E1 E2. rewrite E1, E2 in Hload.
      by destruct Hload as (_ & ? & _).
Qed.

Lemma processDirectory_skipped directory verbose (m : Machine World) :
  let report :=
    imageProcessReport
      (processDirectory host formatFileSize directory verbose m).1 in
  ∃ skips, skipped report = skipped (scan_report host directory m) ++ skips.
Proof.
  unfold scan_report, processDirectory. run.
  destruct (getAllImageFiles _ _ _ _) as [[imageFiles scan] m2].
  simpl. destruct (bool_decide (length imageFiles = 0)).
  - exists []. simpl. by rewrite app_nil_r.
  - set (m3 := Build_Machine _ _ _ _ _).
    pose proof (processFiles_partition host formatFileSize verbose imageFiles
                  [] 0 scan m3) as H. cbv zeta in H.
    destruct (processFiles _ _ _ _ _ _ _ _) as [[[results processed] report] m4].
    simpl in *. destruct H as (_ & skips & _ & H & _). by exists skips.
Qed.

Lemma scan_report_skipped directory entries w (m : Machine World) :
  fs_readdir host directory (world m) = (Resolved entries, w) →
  skipped (scan_report host directory m)
  = refusal <$> filter (refused (self m)) entries.
Proof.
  intros E. unfold scan_report, getAllImageFiles. run. rewrite E. simpl.
  destruct (scanEntries_classifies (self m) directory entries []
              {| skipped := []; failed_upload := []; completed := [] |})
    as [_ H].
  by rewrite H.
Qed.

Lemma no_image_nothing_to_scan directory (m : Machine World) :
  no_image_in host (supportedFormats (self m)) directory (world m) →
  nothing_to_scan host directory m.
Proof.
  unfold no_image_in, nothing_to_scan.
  destruct (fs_readdir host directory (world m)) as [[entries|e] w]; simpl;
    [|done].
  induction 1 as [|entry rest Hentry _ IH]; [done|].
  rewrite filter_cons_False; [done|].
  intros [Hfile Hfmt]. specialize (Hentry Hfile). congruence.
Qed.

(** X17.  When the banks file cannot be read, or is not a well-formed
    document, [scripts/ci.ts] exits with status 1; the attempt to read that
    file is its only call, so the image directory is not even listed. *)
Theorem ci_main_load_failure env e (m : Machine World) :
  let banksFile := path_resolve host ["./_data/banks.json"] in
  (∃ w1, fs_readFile host banksFile (world m) = (Rejected e, w1))
  ∨ (∃ content w1,
       fs_readFile host banksFile (world m) = (Resolved content, w1)
       ∧ JSON_parse content = Rejected e) →
  let out := ci_main host formatFileSize inspect_skipped JSON_parse env m in
  out.1 = Exited 1
  ∧ calls out.2 = calls m ++ [ReadFile banksFile].
Proof.
  intros banksFile Hfail. unfold ci_main. run.
  set (m0 := Build_Machine _ _ _ _ _).
  pose proof (loadBanksData_run m0) as [Hcalls Hload]. cbv zeta in Hload.
  change (banksFilePath (self m0)) with banksFile in *.
  change (world m0) with (world m) in *. change (calls m0) with (calls m) in *.
  assert ((loadBanksData host JSON_parse m0).1 = Rejected e) as Hrej.
  { destruct Hfail as [[w1 E]|(content & w1 & E1 & E2)].
    - rewrite E in Hload. by destruct Hload as (_ & ? & _).
    - rewrite E1, E2 in Hload. by destruct Hload as (_ & ? & _). }
  destruct (loadBanksData host JSON_parse m0) as [r m1]. simpl in *.
  subst r. done.
Qed.

(** X18.  When the banks file loads and the listing of the image directory
    holds a regular file whose extension is not one of the five default
    ones, [scripts/ci.ts] exits with status 1, whatever else the directory
    holds (such a file cannot be the tolerated [default-image.png]). *)
Theorem ci_main_rejects_other_files env content w1 parsed entries w2 entry
    (m : Machine World) :
  let banksFile := path_resolve host ["./_data/banks.json"] in
  let directory := string_or (env !! "IMAGE_DIRECTORY") "./_data/images" in
  fs_readFile host banksFile (world m) = (Resolved content, w1) →
  JSON_parse content = Resolved parsed →
  fs_readdir host directory w1 = (Resolved entries, w2) →
  entry ∈ entries →
  d_isFile entry = true →
  includes_format (Js.toLowerCase (Path.extname (d_name entry)))
    defaultSupportedFormats = false →
  (ci_main host formatFileSize inspect_skipped JSON_parse env m).1 = Exited 1.
Proof.
  intros banksFile directory E1 E2 E3 Hin Hfile Hfmt. unfold ci_main. run.
  set (m0 := Build_Machine _ _ _ _ _).
  pose proof (loadBanksData_run m0) as [_ Hload]. cbv zeta in Hload.
  change (banksFilePath (self m0)) with banksFile in *.
  change (world m0) with (world m) in *.
  rewrite E1, E2 in Hload. destruct Hload as (Hw & Hr & Hs).
  destruct (loadBanksData host JSON_parse m0) as [r m1]. simpl in *. subst r.
  fold directory.
  pose proof (processDirectory_skipped directory false m1) as [skips Hskips].
  rewrite (scan_report_skipped directory entries w2) in Hskips
    by (by rewrite Hw).
  destruct (processDirectory _ _ _ _ _) as [run m2]. simpl in *.
  assert (refusal entry
          ∈ filter (λ image, sk_name image ≠ "default-image.png")
              (skipped (imageProcessReport run))) as Hinvalid.
  { apply list_elem_of_filter. split.
    - simpl. intros Hname. rewrite Hname in Hfmt. by vm_compute in Hfmt.
    - rewrite Hskips. apply elem_of_app. left.
      apply list_elem_of_fmap. exists entry. split; [done|].
      apply list_elem_of_filter. split; [|done]. split; [done|].
      by rewrite Hs. }
  assert (0 < length (skipped (imageProcessReport run))) as Hlen1.
  { rewrite Hskips, length_app.
    assert (0 < length (refusal <$> filter (refused (self m1)) entries));
      [|lia].
    destruct (refusal <$> filter (refused (self m1)) entries) eqn:E; [|simpl; lia].
    exfalso. apply fmap_nil_inv in E.
    assert (entry ∈ filter (refused (self m1)) entries) as Hentry
      by (apply list_elem_of_filter; split; [split; [done|by rewrite Hs]|done]).
    rewrite E in Hentry. by apply elem_of_nil in Hentry. }
  assert (0 < length (filter (λ image, sk_name image ≠ "default-image.png")
                        (skipped (imageProcessReport run)))) as Hlen2.
  { destruct (filter _ (skipped (imageProcessReport run))); [|simpl; lia].
    by apply elem_of_nil in Hinvalid. }
  by rewrite !bool_decide_eq_true_2 by done.
Qed.

(** X19.  When the banks file loads and the listing of the image directory
    fails or holds no regular file with one of the five default
    extensions, [scripts/ci.ts] exits with status 1: a run with nothing to
    check does not pass. *)
Theorem ci_main_needs_an_image env content w1 parsed (m : Machine World) :
  let banksFile := path_resolve host ["./_data/banks.json"] in
  let directory := string_or (env !! "IMAGE_DIRECTORY") "./_data/images" in
  fs_readFile host banksFile (world m) = (Resolved content, w1) →
  JSON_parse content = Resolved parsed →
  no_image_in host defaultSupportedFormats directory w1 →
  (ci_main host formatFileSize inspect_skipped JSON_parse env m).1 = Exited 1.
Proof.
  intros banksFile directory E1 E2 Hnone. unfold ci_main. run.
  set (m0 := Build_Machine _ _ _ _ _).
  pose proof (loadBanksData_run m0) as [_ Hload]. cbv zeta in Hload.
  change (banksFilePath (self m0)) with banksFile in *.
  change (world m0) with (world m) in *.
  rewrite E1, E2 in Hload. destruct Hload as (Hw & Hr & Hs).
  destruct (loadBanksData host JSON_parse m0) as [r m1]. simpl in *. subst r.
  fold directory.
  pose proof (processDirectory_idle host formatFileSize directory false m1)
    as (Hout & _ & Hcompleted & _).
  { apply no_image_nothing_to_scan. by rewrite Hw, Hs. }
  destruct (processDirectory _ _ _ _ _) as [run m2]. simpl in *. subst run.
  simpl. rewrite Hcompleted. simpl.
  by destruct (_ && _).
Qed.

Lemma string_or_falsy v : Js.truthy v = false → string_or v "" = "".
Proof. unfold string_or. by intros ->. Qed.

(** X20.  Outside CI mode, when one of the five storage variables is unset
    or empty, [scripts/build.ts] exits with status 1 after two lines on the
    error console and nothing else: no file is read, the directory is not
    listed, and no processor is constructed. *)
Theorem build_main_requires_storage args env variable (m : Machine World) :
  env !! "CI" ≠ Some "true" →
  variable ∈ storage_variables →
  Js.truthy (env !! variable) = false →
  build_main host formatFileSize formatAverage inspect_skipped inspect_names
    JSON_parse args env m
  = (Exited 1,
     logged Err
       "R2_ACCESS_KEY_ID, R2_SECRET_ACCESS_KEY, R2_ACCOUNT_ID, R2_BUCKET_NAME, R2_PUBLIC_DOMAIN"
       (logged Err
          (Glyph.cross
           +:+ " Missing R2 configuration. Please set environment variables:")
          m)).
Proof.
  intros Hci Hvar Hfalsy. unfold build_main.
  rewrite bool_decide_eq_false_2 by done.
  assert (incomplete (r2Config_of env) = true) as ->; [|done].
  unfold incomplete, r2Config_of, storage_variables in *.
  repeat (apply elem_of_cons in Hvar as [->|Hvar]);
    [..|by apply elem_of_nil in Hvar];
    simpl; rewrite (string_or_falsy _ Hfalsy); simpl;
    rewrite ?orb_true_r; done.
Qed.

(** X21.  In CI mode [scripts/build.ts] sends nothing to the object store,
    whatever the storage variables hold, and when the banks file loads the
    registry is, at the end, the parsed file, unchanged.  (The images it
    counts as completed are deleted all the same.) *)
Theorem build_main_ci_sends_nothing args env (m : Machine World) :
  env !! "CI" = Some "true" →
  let out :=
    build_main host formatFileSize formatAverage inspect_skipped inspect_names
      JSON_parse args env m in
  let banksFile := path_resolve host ["./_data/banks.json"] in
  (∃ others,
     calls out.2 = calls m ++ others
     ∧ Forall (λ c, is_send c = false) others)
  ∧ ∀ content w1 parsed,
      fs_readFile host banksFile (world m) = (Resolved content, w1) →
      JSON_parse content = Resolved parsed →
      banks (self out.2) = parsed.
Proof.
  intros Hci. unfold build_main.
  rewrite (bool_decide_eq_true_2 _ Hci). simpl. run.
  set (m0 := Build_Machine _ _ _ _ _).
  pose proof (loadBanksData_run m0) as [Hcalls Hload]. cbv zeta in Hload.
  change (banksFilePath (self m0)) with (path_resolve host ["./_data/banks.json"])
    in *.
  change (world m0) with (world m) in *. change (calls m0) with (calls m) in *.
  destruct (loadBanksData host JSON_parse m0) as [[[]|e] m1]; simpl in *.
  - assert (∃ bs, self m1 = set_banks bs (self m0)) as [bs Hself].
    { destruct (fs_readFile host _ _) as [[content|e] w1].
      - destruct Hload as [_ Hload].
        destruct (JSON_parse content); destruct Hload as [? ?]; [eauto|done].
      - by destruct Hload as (_ & ? & _). }
    set (directory := string_or (args !! 0) "./_data/images").
    set (verbose := negb (Js.truthy (env !! "CI"))).
    pose proof (processDirectory_probes_only host formatFileSize directory
                  verbose m1) as [Hself2 Hcalls2].
    { rewrite Hself. by left. }
    destruct (processDirectory _ _ _ _ _) as [r m2]. simpl in *.
    pose proof (printReport_frame (results r) (imageProcessReport r) m2)
      as (Hself3 & _ & Hcalls3). cbv zeta in Hself3, Hcalls3.
    destruct (printReport _ _ _ _ _ _ _) as [[] m3]. simpl in *.
    assert (∀ content w1 parsed,
              fs_readFile host (path_resolve host ["./_data/banks.json"])
                (world m) = (Resolved content, w1) →
              JSON_parse content = Resolved parsed →
              banks (self m3) = parsed) as Hbanks.
    { intros content w1 parsed E1 E2. rewrite E1, E2 in Hload.
      destruct Hload as (_ & _ & Hs). by rewrite Hself3, Hself2, Hs. }
    assert (∃ others,
              calls m3 = calls m ++ others
              ∧ Forall (λ c, is_send c = false) others) as (others & Ho & Hno).
    { eexists. rewrite Hcalls3, Hcalls2, Hcalls, <- app_assoc.
      split; [done|].
      constructor; [done|]. constructor; [done|].
      apply Forall_fmap, Forall_forall. done. }
    destruct (bool_decide (0 < length (completed (imageProcessReport r)))).
    + pose proof (cleanup_run host (completed (imageProcessReport r)) m3)
        as (Hcalls4 & Hself4 & _). cbv zeta in Hcalls4, Hself4.
      destruct (cleanup _ _ _) as [[err|] m4]; simpl in *.
      * split.
        -- eexists. rewrite Hcalls4, Ho, <- app_assoc. split; [done|].
           apply Forall_app. split; [done|].
           apply Forall_fmap, Forall_forall. done.
        -- intros. rewrite Hself4. eauto.
      * split.
        -- eexists. rewrite Hcalls4, Ho, <- app_assoc. split; [done|].
           apply Forall_app. split; [done|].
           apply Forall_fmap, Forall_forall. done.
        -- intros. rewrite Hself4. eauto.
    + simpl. split; [by exists others | done].
  - split.
    + exists [ReadFile (path_resolve host ["./_data/banks.json"])].
      rewrite Hcalls. split; [done|]. by constructor.
    + intros content w1 parsed E1 E2. rewrite E1, E2 in Hload.
      by destruct Hload as (_ & ? & _).
Qed.
End ScriptFacts.

(* ------------------------------------------------------------------ *)
(** ** Further properties: the counters of the deletion loop *)

Section DeletionFacts.
Context {World : Type} (host : Host World).

(** X22.  The deletion loop of [cleanup] counts every file once: the
    number of deleted files and the number of failed deletions grow
    together by the number of completed images, the failures by the number
    of rejected [unlink] calls; and the loop leaves the processor as it
    was. *)
Theorem deleteFiles_counts dirPath completedImages :
  ∀ deletedCount failedCount (m : Machine World),
  let targets := (λ p, path_resolve host [dirPath; p]) <$> completedImages in
  let out :=
    deleteFiles host dirPath completedImages deletedCount failedCount m in
  out.1.1 + out.1.2 = deletedCount + failedCount + length completedImages
  ∧ out.1.2 = failedCount + rejected_unlinks host targets (world m)
  ∧ self out.2 = self m.
Proof.
  induction completedImages as [|imagePath rest IH];
    intros deletedCount failedCount m.
  - simpl. split; [lia|]. split; [lia|done].
  - simpl. run.
    destruct (fs_unlink host _ (world m)) as [[[]|e] w]; simpl;
      match goal with |- context [deleteFiles host dirPath rest ?d ?f ?m0] =>
        destruct (IH d f m0) as (H1 & H2 & H3) end;
      rewrite H3; (split; [lia|]);
      (split; [rewrite H2; simpl; by rewrite <- ?Nat.add_succ_r | done]).
Qed.
End DeletionFacts.

(* ------------------------------------------------------------------ *)
(** ** The further statements at work on the concrete world *)

Lemma processImage_upload_records_url_witness :
  (processImage Demo.host Demo.ten_jpg Demo.live).1.2
  = Icon (Some "https://cdn/logo/000010")
  ∧ banks (self (processImage Demo.host Demo.ten_jpg Demo.live).2) !! 0
    = Some (Bank.mk "Ten Bank" "10" "000010" (Some "https://cdn/logo/000010"))
  ∧ banks (self (processImage Demo.host Demo.ten_jpg Demo.live).2) !! 3
    = Demo.registry !! 3.
Proof.
  destruct (processImage_upload_records_url Demo.host Demo.ten_jpg "10" 0
              Demo.ten_bank Site.client Demo.r2 "<bytes>" Demo.images
              Demo.images Demo.live)
    as (H1 & _ & _ & H2 & H3 & _);
    [by_evaluation | reflexivity..|].
  split; [exact H1|]. split; [exact H2|]. apply H3. lia.
Defined.

Lemma processImage_upload_failure_witness :
  (processImage Demo.host Demo.ten_jpg Site.offline).1.2
  = Failure (upload_failure (Some "connect ETIMEDOUT"))
  ∧ self (processImage Demo.host Demo.ten_jpg Site.offline).2
    = self Site.offline.
Proof.
  destruct (processImage_upload_failure Demo.host Demo.ten_jpg "10" 0
              Demo.ten_bank Site.client Demo.r2 Site.offline)
    as [_ H]; [by_evaluation | reflexivity..|].
  apply (H "<bytes>" (Some "connect ETIMEDOUT") Site.store_down Site.store_down);
    reflexivity.
Defined.

Lemma processDirectory_without_upload_witness :
  self (processDirectory Demo.host Demo.formatFileSize "./_data/images" false
          Demo.ci).2
  = self Demo.ci
  ∧ calls (processDirectory Demo.host Demo.formatFileSize "./_data/images"
             false Demo.ci).2
    = [Readdir "./_data/images"; Stat "_data/images/10.jpg";
       Stat "_data/images/78.png"; Stat "_data/images/77.png";
       Stat "_data/images/logo-a.png"; Stat "_data/images/5.png"].
Proof.
  destruct (processDirectory_without_upload Demo.host Demo.formatFileSize
              "./_data/images" false Demo.ci) as [H1 H2];
    [left; reflexivity|].
  split; [exact H1|]. rewrite H2. reflexivity.
Defined.

Lemma uploaded_icon_is_reused_witness :
  (processImage Demo.host Demo.ten_jpg
     (processImage Demo.host Demo.ten_jpg Demo.live).2).1.2
  = Icon (Some "https://cdn/logo/000010")
  ∧ calls (processImage Demo.host Demo.ten_jpg
             (processImage Demo.host Demo.ten_jpg Demo.live).2).2
    = calls (processImage Demo.host Demo.ten_jpg Demo.live).2.
Proof.
  destruct (uploaded_icon_is_reused Demo.host Demo.ten_jpg "10" 0 Demo.ten_bank
              "https://cdn/logo/000010" Demo.live)
    as (H1 & H2 & _); [by_evaluation | reflexivity..|].
  split; [exact H1 | exact H2].
Defined.

Lemma processDirectory_nothing_to_scan_witness :
  (processDirectory Demo.host Demo.formatFileSize "./_data/images" true
     (Site.boot Site.no_images)).1
  = {| processed := 0; results := []; total := 0;
       imageProcessReport := Demo.no_report |}
  ∧ calls (processDirectory Demo.host Demo.formatFileSize "./_data/images"
             true (Site.boot Site.no_images)).2
    = [Readdir "./_data/images"].
Proof.
  destruct (processDirectory_nothing_to_scan Demo.host Demo.formatFileSize
              "./_data/images" true (Site.boot Site.no_images))
    as (H1 & _ & _ & H2 & _); [reflexivity|].
  split; [rewrite H1; reflexivity | exact H2].
Defined.

Lemma run_report_counts_no_unsupported_witness :
  ReportData.unsupported
    (generateReport
       (results (processDirectory Demo.host Demo.formatFileSize
                   "./_data/images" false Demo.live).1))
  = 0.
Proof.
  apply run_report_counts_no_unsupported.
  change (Forall (λ e, entry_name (d_name e)) (Demo.entries Demo.images)).
  apply (bool_decide_unpack _). by vm_compute.
Defined.

Lemma getBankByCode_finds_witness :
  NgnBanksRegistry.getBankByCode Demo.registry "078" = Some Demo.bank_78.
Proof.
  assert (NoDup (Bank.code <$> Demo.registry)) as Hcodes
    by (apply (bool_decide_unpack _); by vm_compute).
  assert (Demo.bank_78 ∈ Demo.registry) as Hin
    by (apply list_elem_of_lookup; by exists 2).
  exact (proj2 (getBankByCode_finds Demo.registry "078") Hcodes Demo.bank_78 Hin).
Defined.

Lemma ci_main_only_probes_witness :
  banks (self (Site.ci_main Site.ci_env (Site.boot Site.images)).2)
  = Demo.registry.
Proof.
  apply (proj2 (ci_main_only_probes Demo.host Demo.formatFileSize
                  Site.inspect_skipped Site.JSON_parse Site.ci_env
                  (Site.boot Site.images))
           "<bytes>" Site.images Demo.registry); reflexivity.
Defined.

Lemma ci_main_load_failure_witness :
  (Site.ci_main Site.ci_env (Site.boot Demo.images)).1 = Exited 1
  ∧ calls (Site.ci_main Site.ci_env (Site.boot Demo.images)).2
    = [ReadFile "/repo/_data/banks.json"].
Proof.
  apply (ci_main_load_failure Demo.host Demo.formatFileSize
           Site.inspect_skipped Site.JSON_parse Site.ci_env
           (Some "ENOENT: no such file or directory") (Site.boot Demo.images)).
  left. exists Demo.images. reflexivity.
Defined.

Lemma ci_main_rejects_other_files_witness :
  (Site.ci_main Site.ci_env (Site.boot Site.images)).1 = Exited 1.
Proof.
  apply (ci_main_rejects_other_files Demo.host Demo.formatFileSize
           Site.inspect_skipped Site.JSON_parse Site.ci_env "<bytes>"
           Site.images Demo.registry (Demo.entries Demo.images) Site.images
           Site.notes (Site.boot Site.images));
    try reflexivity.
  apply list_elem_of_lookup. by exists 2.
Defined.

Lemma ci_main_needs_an_image_witness :
  (Site.ci_main ∅ (Site.boot Site.no_images)).1 = Exited 1.
Proof.
  apply (ci_main_needs_an_image Demo.host Demo.formatFileSize
           Site.inspect_skipped Site.JSON_parse ∅ "<bytes>" Site.no_images
           Demo.registry (Site.boot Site.no_images)); try reflexivity.
  constructor.
Defined.

Lemma build_main_requires_storage_witness :
  (Site.build_main ["./_data/images"] ∅ (Site.boot Site.images)).1 = Exited 1
  ∧ calls (Site.build_main ["./_data/images"] ∅ (Site.boot Site.images)).2
    = [].
Proof.
  unfold Site.build_main.
  rewrite (build_main_requires_storage Demo.host Demo.formatFileSize
             Site.formatAverage Site.inspect_skipped Site.inspect_names
             Site.JSON_parse ["./_data/images"] ∅ "R2_BUCKET_NAME"
             (Site.boot Site.images)).
  - split; reflexivity.
  - discriminate.
  - apply (bool_decide_unpack _). by vm_compute.
  - reflexivity.
Defined.

Lemma build_main_ci_sends_nothing_witness :
  banks (self (Site.build_main [] Site.ci_env (Site.boot Site.images)).2)
  = Demo.registry.
Proof.
  apply (proj2 (build_main_ci_sends_nothing Demo.host Demo.formatFileSize
                  Site.formatAverage Site.inspect_skipped Site.inspect_names
                  Site.JSON_parse [] Site.ci_env (Site.boot Site.images)
                  eq_refl)
           "<bytes>" Site.images Demo.registry); reflexivity.
Defined.
